(** * Steam catalogue notebook: cleaning and feature engineering

    A shallow embedding of the column expressions of [PROJET-Steam.py]
    (sections 3, 4 and 6.1 of the notebook) and the properties of the
    cleaned table that the analysis relies on.

    Conventions.
    - A nullable Spark column value of type [T] is an [option T]; SQL [NULL]
      is [None].
    - A DataFrame is the list of its rows; [withColumn] is a [map] over it.
    - Text is [string]; the characters the notebook tests for ([,], [/], [-],
      the digits, white space) are ASCII, so they never occur inside a
      multi-byte character.
    - Spark runs with its default, non-ANSI settings: a cast that fails yields
      [NULL] and [bigint] addition wraps around.
    - Spark 3 runs with its default [spark.sql.legacy.timeParserPolicy],
      [EXCEPTION]: [to_date] raises where its parser fails on a text that the
      parser of Spark 2 reads. A column that can raise is an [outcome].
    - Spark computes a column when an action needs it; a table is given with
      the columns it uses, so the tables that leave the release date out do
      not depend on its parsing. *)

From Stdlib Require Import ZArith List Bool Ascii String Lia Floats.
From Stdlib Require Import Permutation Sorted.
Import ListNotations.

Local Open Scope string_scope.
Local Open Scope Z_scope.

(** ** Character classes of java.util.regex *)

Definition in_range (lo hi c : ascii) : bool :=
  ((nat_of_ascii lo <=? nat_of_ascii c) && (nat_of_ascii c <=? nat_of_ascii hi))%nat.

(** [\d] is [[0-9]]. *)
Definition is_digit (c : ascii) : bool := in_range "0" "9" c.

(** [\s] is [[ \t\n\x0B\f\r]]. *)
Definition is_space (c : ascii) : bool :=
  (c =? " ")%char || in_range (ascii_of_nat 9) (ascii_of_nat 13) c.

(** ** The regular expressions of the notebook *)

Module Regex.

Inductive regex : Type :=
| Chr (c : ascii)           (* a literal character *)
| Digit                     (* \d *)
| Space                     (* \s *)
| Cat (r1 r2 : regex)       (* r1 r2 *)
| Star (r : regex)          (* r*  (greedy) *)
| Plus (r : regex)          (* r+  (greedy) *)
| Group (r : regex)         (* (r), the capturing group 1 *)
| NotAhead (r : regex).     (* (?!r) *)

(** A match in progress: the text still to read and what group 1 holds. *)
Definition state : Type := string * option string.
Definition cont : Type := string -> option string -> option state.

(** The text [s] read so far when [rest] is what remains of it. *)
Definition consumed (s rest : string) : string :=
  substring 0 (length s - length rest) s.

Definition one (p : ascii -> bool) (s : string) (g : option string) (k : cont)
  : option state :=
  match s with
  | String a s' => if p a then k s' g else None
  | EmptyString => None
  end.

(** Greedy repetition with backtracking: one more round if it reads
    something and the rest then matches, otherwise stop here. *)
Fixpoint star (step : string -> option string -> cont -> option state)
    (fuel : nat) (s : string) (g : option string) (k : cont) : option state :=
  match fuel with
  | O => k s g
  | S n =>
      match step s g (fun s' g' =>
               if (length s' <? length s)%nat then star step n s' g' k else None) with
      | Some st => Some st
      | None => k s g
      end
  end.

Fixpoint run (r : regex) (s : string) (g : option string) (k : cont)
  : option state :=
  match r with
  | Chr c => one (Ascii.eqb c) s g k
  | Digit => one is_digit s g k
  | Space => one is_space s g k
  | Cat r1 r2 => run r1 s g (fun s' g' => run r2 s' g' k)
  | Star r1 => star (run r1) (length s) s g k
  | Plus r1 => run r1 s g (fun s' g' => star (run r1) (length s') s' g' k)
  | Group r1 => run r1 s g (fun s' _ => k s' (Some (consumed s s')))
  | NotAhead r1 =>
      match run r1 s g (fun s' g' => Some (s', g')) with
      | Some _ => None
      | None => k s g
      end
  end.

(** A match of [r] at the start of [s]: what is left and group 1. *)
Definition match_at (r : regex) (s : string) : option state :=
  run r s None (fun s' g => Some (s', g)).

Definition group1 (g : option string) : string :=
  match g with Some t => t | None => "" end.

(** A replacement text: [$1] stands for group 1. *)
Fixpoint expand (rep : string) (g : option string) : string :=
  match rep with
  | EmptyString => ""
  | String c tl =>
      match tl with
      | String d tl' =>
          if ((c =? "$") && (d =? "1"))%char then group1 g ++ expand tl' g
          else String c (expand tl g)
      | EmptyString => String c ""
      end
  end.

(** [Matcher.replaceAll]: the matches are found from left to right and do
    not overlap; [skip] counts the characters of the current match that are
    still to be passed over. *)
Fixpoint replace_from (r : regex) (rep : string) (skip : nat) (s : string) : string :=
  match s with
  | EmptyString =>
      match skip, match_at r "" with
      | O, Some (_, g) => expand rep g
      | _, _ => ""
      end
  | String c tl =>
      match skip with
      | S n => replace_from r rep n tl
      | O =>
          match match_at r s with
          | Some (rest, g) =>
              match (length s - length rest)%nat with
              | O => expand rep g ++ String c (replace_from r rep 0 tl)
              | S w => expand rep g ++ replace_from r rep w tl
              end
          | None => String c (replace_from r rep 0 tl)
          end
      end
  end.

Definition replace_all (r : regex) (rep : string) (s : string) : string :=
  replace_from r rep 0 s.

(** [Matcher.find]: the leftmost match. *)
Fixpoint find (r : regex) (s : string) : option state :=
  match match_at r s with
  | Some st => Some st
  | None =>
      match s with
      | EmptyString => None
      | String _ tl => find r tl
      end
  end.

(** [String.split(regex, -1)] for a pattern that never matches the empty
    text: the pieces between the matches, the empty ones included. [push]
    puts a character in front of the piece being read. *)
Definition push (c : ascii) (l : list string) : list string :=
  match l with
  | t :: ts => String c t :: ts
  | [] => [String c ""]
  end.

Fixpoint split_from (r : regex) (skip : nat) (s : string) : list string :=
  match s with
  | EmptyString => [""]
  | String c tl =>
      match skip with
      | S n => split_from r n tl
      | O =>
          match match_at r s with
          | Some (rest, _) =>
              match (length s - length rest)%nat with
              | O => push c (split_from r 0 tl)
              | S w => "" :: split_from r w tl
              end
          | None => push c (split_from r 0 tl)
          end
      end
  end.

Definition split_all (r : regex) (s : string) : list string :=
  split_from r 0 s.

End Regex.
Import Regex.

(** ** Spark SQL column functions (non-ANSI mode) *)

Module Spark.

(** *** Three-valued conditions *)

Definition isNull {A} (x : option A) : option bool :=
  match x with None => Some true | Some _ => Some false end.

Definition isNotNull {A} (x : option A) : option bool :=
  match x with None => Some false | Some _ => Some true end.

Definition and3 (a b : option bool) : option bool :=
  match a, b with
  | Some false, _ | _, Some false => Some false
  | Some true, Some true => Some true
  | _, _ => None
  end.

Definition cmp (f : Z -> Z -> bool) (x : option Z) (c : Z) : option bool :=
  option_map (fun v => f v c) x.

Definition lt := cmp Z.ltb.
Definition le := cmp Z.leb.
Definition gt := cmp Z.gtb.
Definition ge := cmp Z.geb.

Definition neq_str (x : option string) (c : string) : option bool :=
  option_map (fun v => negb (String.eqb v c)) x.

(** [F.when(c, v).otherwise(w)]: [v] where the condition is true, [w]
    where it is false or NULL. *)
Definition when_ {A} (c : option bool) (v w : option A) : option A :=
  match c with Some true => v | _ => w end.

Definition lit {A} (v : A) : option A := Some v.

Fixpoint coalesce {A} (l : list (option A)) : option A :=
  match l with
  | [] => None
  | Some v :: _ => Some v
  | None :: tl => coalesce tl
  end.

(** *** Regular-expression functions; a NULL text gives NULL *)

Definition regexp_replace (x : option string) (r : regex) (rep : string)
  : option string :=
  option_map (replace_all r rep) x.

(** [regexp_extract(x, r, 1)]: group 1 of the leftmost match, the empty
    text when there is no match. *)
Definition regexp_extract1 (x : option string) (r : regex) : option string :=
  option_map (fun s => match find r s with
                       | Some (_, g) => group1 g
                       | None => ""
                       end) x.

Definition split (x : option string) (r : regex) : option (list string) :=
  option_map (split_all r) x.

(** [explode]: one row per element, none for NULL or an empty array. *)
Definition explode {A} (x : option (list A)) : list (option A) :=
  match x with
  | Some l => map Some l
  | None => []
  end.

(** *** Integral types and casts *)

Definition long_min : Z := - 2 ^ 63.
Definition long_max : Z := 2 ^ 63 - 1.
Definition int_min : Z := - 2 ^ 31.
Definition int_max : Z := 2 ^ 31 - 1.

Definition is_long (v : Z) : Prop := long_min <= v <= long_max.
Definition is_int (v : Z) : Prop := int_min <= v <= int_max.

(** Two's-complement wrap-around of [bigint] arithmetic. *)
Definition wrap64 (z : Z) : Z := (z + 2 ^ 63) mod 2 ^ 64 - 2 ^ 63.

Definition add_long (x y : option Z) : option Z :=
  match x, y with
  | Some a, Some b => Some (wrap64 (a + b))
  | _, _ => None
  end.

(** Casting text to an integral type ([UTF8String.toLong], [toInt]): the
    text is trimmed of blanks and control characters; an optional sign, then
    digits, then optionally a point and more digits, which are dropped; the
    value has to fit the type. Anything else gives NULL. *)
Definition is_blank (c : ascii) : bool :=
  ((nat_of_ascii c <=? 32) || (nat_of_ascii c =? 127))%nat.

Fixpoint ltrim (s : string) : string :=
  match s with
  | String c tl => if is_blank c then ltrim tl else s
  | EmptyString => ""
  end.

Fixpoint rtrim (s : string) : string :=
  match s with
  | String c tl =>
      match rtrim tl with
      | EmptyString => if is_blank c then "" else String c ""
      | t => String c t
      end
  | EmptyString => ""
  end.

Definition digit_value (c : ascii) : Z :=
  Z.of_nat (nat_of_ascii c) - 48.

Fixpoint all_digits (s : string) : bool :=
  match s with
  | String c tl => is_digit c && all_digits tl
  | EmptyString => true
  end.

Fixpoint read_integer (acc : Z) (s : string) : option Z :=
  match s with
  | EmptyString => Some acc
  | String c tl =>
      if (c =? ".")%char then if all_digits tl then Some acc else None
      else if is_digit c then read_integer (acc * 10 + digit_value c) tl
      else None
  end.

Definition to_integral (lo hi : Z) (s : string) : option Z :=
  match rtrim (ltrim s) with
  | EmptyString => None
  | String c tl as t =>
      let negative := (c =? "-")%char in
      let signed := negative || (c =? "+")%char in
      if signed && (length tl =? 0)%nat then None
      else
        match read_integer 0 (if signed then tl else t) with
        | Some m =>
            let v := if negative then - m else m in
            if (lo <=? v) && (v <=? hi) then Some v else None
        | None => None
        end
  end.

Definition cast_long (x : option string) : option Z :=
  match x with Some s => to_integral long_min long_max s | None => None end.

Definition cast_int (x : option string) : option Z :=
  match x with Some s => to_integral int_min int_max s | None => None end.

(** *** Doubles *)

(** A [bigint] as a [double], rounded to nearest. *)
Definition long_to_double (z : Z) : float :=
  SF2Prim (SpecFloat.binary_normalize prec emax z 0 false).

Definition cast_long_double (x : option Z) : option float :=
  option_map long_to_double x.

(** A [double] divided by a [bigint]: NULL for a NULL operand and for a
    zero divisor (a [bigint] other than zero is not zero as a [double]). *)
Definition div_long (x : option float) (y : option Z) : option float :=
  match x, y with
  | Some a, Some b =>
      if b =? 0 then None else Some (PrimFloat.div a (long_to_double b))
  | _, _ => None
  end.

Definition div_const (x : option float) (c : Z) : option float :=
  option_map (fun a => PrimFloat.div a (long_to_double c)) x.

(** *** Dates *)

Record date : Type := Date { date_year : Z; date_month : Z; date_day : Z }.

Definition year (d : option date) : option Z := option_map date_year d.
Definition month (d : option date) : option Z := option_map date_month d.

(** What evaluating a column on a row gives. Under Spark's default
    [spark.sql.legacy.timeParserPolicy] ([EXCEPTION]) a [to_date] whose parser
    fails on a text that the parser of Spark 2 reads does not give NULL: it
    raises [SparkUpgradeException], and the job fails. [NotModelled] marks
    the texts and patterns this model does not settle. *)
Inductive outcome (A : Type) : Type :=
| Returns (a : A)
| SparkUpgradeException
| NotModelled.

Arguments Returns {A} a.
Arguments SparkUpgradeException {A}.
Arguments NotModelled {A}.

Definition outcome_map {A B} (f : A -> B) (o : outcome A) : outcome B :=
  match o with
  | Returns a => Returns (f a)
  | SparkUpgradeException => SparkUpgradeException
  | NotModelled => NotModelled
  end.

(** [F.coalesce] over columns that may raise: the columns are evaluated from
    the left, and only as far as the first one that is not NULL. *)
Fixpoint coalesce_lazy {A} (l : list (outcome (option A))) : outcome (option A) :=
  match l with
  | [] => Returns None
  | Returns (Some v) :: _ => Returns (Some v)
  | Returns None :: tl => coalesce_lazy tl
  | SparkUpgradeException :: _ => SparkUpgradeException
  | NotModelled :: _ => NotModelled
  end.

(** The ISO calendar of [java.time]: the Gregorian rules at every year,
    year 0 and the years before it included. *)
Definition leap (y : Z) : bool :=
  ((y mod 4 =? 0) && negb (y mod 100 =? 0)) || (y mod 400 =? 0).

Definition days_in_month (y m : Z) : Z :=
  if m =? 2 then (if leap y then 29 else 28)
  else if (m =? 4) || (m =? 6) || (m =? 9) || (m =? 11) then 30
  else 31.

(** What the strict resolver accepts. *)
Definition valid_date (y m d : Z) : bool :=
  (-999999999 <=? y) && (y <=? 999999999) &&
  (1 <=? m) && (m <=? 12) && (1 <=? d) && (d <=? days_in_month y m).

(** The pattern letters the notebook uses. *)
Inductive field : Type :=
| F_MMM                     (* month, short English name, any case *)
| F_MM                      (* month, two digits *)
| F_d                       (* day, as many digits as there are *)
| F_dd                      (* day, two digits *)
| F_yyyy                    (* year, four digits, or more with a sign *)
| F_lit (c : ascii).        (* the character itself *)

Definition is_letter (c : ascii) : bool :=
  in_range "a" "z" c || in_range "A" "Z" c.

(** Runs of one character, with their lengths. *)
Fixpoint runs (s : string) : list (ascii * nat) :=
  match s with
  | EmptyString => []
  | String c tl =>
      match runs tl with
      | (c', n) :: rest => if (c =? c')%char then (c, S n) :: rest
                           else (c, 1%nat) :: (c', n) :: rest
      | [] => [(c, 1%nat)]
      end
  end.

Definition field_of_run (r : ascii * nat) : option (list field) :=
  let (c, n) := r in
  if is_letter c then
    if (c =? "M")%char && (n =? 3)%nat then Some [F_MMM]
    else if (c =? "M")%char && (n =? 2)%nat then Some [F_MM]
    else if (c =? "d")%char && (n =? 1)%nat then Some [F_d]
    else if (c =? "d")%char && (n =? 2)%nat then Some [F_dd]
    else if (c =? "y")%char && (n =? 4)%nat then Some [F_yyyy]
    else None
  else Some (repeat (F_lit c) n).

Fixpoint compile (rs : list (ascii * nat)) : option (list field) :=
  match rs with
  | [] => Some []
  | r :: tl =>
      match field_of_run r, compile tl with
      | Some f, Some fs => Some (f ++ fs)%list
      | _, _ => None
      end
  end.

(** The patterns modelled: one year, one month and one day, with a
    separator between any two of them, the separators being among
    [ -/.:,]. The five patterns of the notebook are of this kind. *)
Definition is_literal (f : field) : bool :=
  match f with F_lit _ => true | _ => false end.

Definition is_year (f : field) : bool :=
  match f with F_yyyy => true | _ => false end.

Definition is_month (f : field) : bool :=
  match f with F_MMM | F_MM => true | _ => false end.

Definition is_day (f : field) : bool :=
  match f with F_d | F_dd => true | _ => false end.

Definition is_separator (f : field) : bool :=
  match f with
  | F_lit c => (c =? " ")%char || (c =? "-")%char || (c =? "/")%char ||
               (c =? ".")%char || (c =? ":")%char || (c =? ",")%char
  | _ => true
  end.

Fixpoint separated (fs : list field) : bool :=
  match fs with
  | a :: tl =>
      match tl with
      | b :: _ => (is_literal a || is_literal b) && separated tl
      | [] => true
      end
  | [] => true
  end.

Definition supported (fs : list field) : bool :=
  separated fs && forallb is_separator fs &&
  (List.length (filter is_year fs) =? 1)%nat &&
  (List.length (filter is_month fs) =? 1)%nat &&
  (List.length (filter is_day fs) =? 1)%nat.

Definition lower (c : ascii) : ascii :=
  if in_range "A" "Z" c then ascii_of_nat (nat_of_ascii c + 32) else c.

Fixpoint lower_string (s : string) : string :=
  match s with
  | String c tl => String (lower c) (lower_string tl)
  | EmptyString => ""
  end.

Definition month_names : list string :=
  ["jan"; "feb"; "mar"; "apr"; "may"; "jun";
   "jul"; "aug"; "sep"; "oct"; "nov"; "dec"].

Fixpoint index_of (x : string) (l : list string) (i : Z) : option Z :=
  match l with
  | [] => None
  | y :: tl => if String.eqb x y then Some i else index_of x tl (i + 1)
  end.

(** The longest run of digits at the start of [s]: its value, its length
    and what follows. *)
Fixpoint read_digits (acc : Z) (n : nat) (s : string) : Z * nat * string :=
  match s with
  | String c tl =>
      if is_digit c then read_digits (acc * 10 + digit_value c) (S n) tl
      else (acc, n, s)
  | EmptyString => (acc, n, s)
  end.

(** Exactly [n] digits at the start of [s]. *)
Definition read_fixed (n : nat) (s : string) : option (Z * string) :=
  let t := substring 0 n s in
  if (length t =? n)%nat && all_digits t
  then Some (fst (fst (read_digits 0 0 t)), substring n (length s - n) s)
  else None.

(** What has been read of a date: year, month and day. *)
Definition partial : Type := option Z * option Z * option Z.

(** One field read by the parser of [java.time] that Spark 3 builds for the
    pattern (case-insensitive, strict, [yyyy] taken as [uuuu]). A year is
    four digits; with more digits it needs a [+] in front; after a [-] it has
    four digits or more and is not zero. A run of more than 19 digits is read
    in part only and then fails at what follows the field, a separator or the
    end of the text. *)
Definition parse_field (f : field) (p : partial) (s : string)
  : option (partial * string) :=
  let '(y, m, d) := p in
  match f with
  | F_MMM =>
      match index_of (lower_string (substring 0 3 s)) month_names 1 with
      | Some i => Some ((y, Some i, d), substring 3 (length s - 3) s)
      | None => None
      end
  | F_MM =>
      match read_fixed 2 s with
      | Some (v, rest) => Some ((y, Some v, d), rest)
      | None => None
      end
  | F_d =>
      let '(v, n, rest) := read_digits 0 0 s in
      if (1 <=? n)%nat && (n <=? 19)%nat then Some ((y, m, Some v), rest) else None
  | F_dd =>
      match read_fixed 2 s with
      | Some (v, rest) => Some ((y, m, Some v), rest)
      | None => None
      end
  | F_yyyy =>
      match s with
      | String "+" tl =>
          let '(v, n, rest) := read_digits 0 0 tl in
          if (5 <=? n)%nat && (n <=? 19)%nat then Some ((Some v, m, d), rest)
          else None
      | String "-" tl =>
          let '(v, n, rest) := read_digits 0 0 tl in
          if (4 <=? n)%nat && (n <=? 19)%nat && negb (v =? 0)
          then Some ((Some (- v), m, d), rest)
          else None
      | _ =>
          let '(v, n, rest) := read_digits 0 0 s in
          if (n =? 4)%nat then Some ((Some v, m, d), rest) else None
      end
  | F_lit c =>
      match s with
      | String a rest => if (a =? c)%char then Some (p, rest) else None
      | EmptyString => None
      end
  end.

Fixpoint parse_fields (fs : list field) (p : partial) (s : string)
  : option (partial * string) :=
  match fs with
  | [] => Some (p, s)
  | f :: tl =>
      match parse_field f p s with
      | Some (p', rest) => parse_fields tl p' rest
      | None => None
      end
  end.

(** The parser of Spark 3: the whole text has to follow the pattern and
    name a day of the ISO calendar. [None] is its [DateTimeException]. *)
Definition new_parse (fs : list field) (s : string) : option date :=
  match parse_fields fs (None, None, None) s with
  | Some ((Some y, Some m, Some d), EmptyString) =>
      if valid_date y m d then Some (Date y m d) else None
  | _ => None
  end.

(** *** The parser of Spark 2

    [to_date] asks [java.text.SimpleDateFormat], not lenient, whether it
    reads a text that the parser of Spark 3 has refused. It reads a prefix
    of the text; skips spaces and tabs in front of every field; reads a
    number of any length whatever the count of pattern letters; takes a
    month name in full or in short; and checks the day against the calendar
    of [java.util.GregorianCalendar], Julian before 15 October 1582. *)

Inductive verdict : Type :=
| Accepts
| Rejects
| Unsure.                   (* not settled by this model *)

(** A field of the old parser: read, refused, or not settled here. *)
Inductive reading (A : Type) : Type :=
| Read (a : A)
| NoRead
| Unread.

Arguments Read {A} a.
Arguments NoRead {A}.
Arguments Unread {A}.

Definition long_month_names : list string :=
  ["january"; "february"; "march"; "april"; "may"; "june";
   "july"; "august"; "september"; "october"; "november"; "december"].

(** The name of [names] that [s] starts with, whatever the case: its rank,
    counted from [i], and its length. *)
Fixpoint match_name (names : list string) (i : Z) (s : string)
  : option (Z * nat) :=
  match names with
  | [] => None
  | n :: tl =>
      if String.eqb n (lower_string (substring 0 (length n) s))
      then Some (i, length n)
      else match_name tl (i + 1) s
  end.

(** The full names are tried first, then the short ones. *)
Definition legacy_month (s : string) : option (Z * nat) :=
  match match_name long_month_names 1 s with
  | Some r => Some r
  | None => match_name month_names 1 s
  end.

Fixpoint skip_blanks (s : string) : string :=
  match s with
  | String c tl =>
      if (c =? " ")%char || (c =? "009")%char then skip_blanks tl else s
  | EmptyString => s
  end.

(** [E] and digits after a number are an exponent for
    [java.text.DecimalFormat]; such numbers are not modelled. *)
Definition exponent_follows (s : string) : bool :=
  match s with
  | String e (String c tl) =>
      ((e =? "E")%char || (e =? "e")%char) &&
      (is_digit c ||
       ((c =? "-")%char && match tl with String d _ => is_digit d | _ => false end))
  | _ => false
  end.

(** A number as [DecimalFormat] reads it for [SimpleDateFormat]: a [-] or
    nothing, then the longest run of digits. It is then turned into a Java
    [int]; the numbers that do not fit one are not modelled. *)
Definition legacy_number (s : string) : reading (Z * string) :=
  let (neg, t) := match s with
                  | String "-" tl => (true, tl)
                  | _ => (false, s)
                  end in
  let '(v, n, rest) := read_digits 0 0 t in
  if (n =? 0)%nat then NoRead
  else if exponent_follows rest || (2 ^ 31 <=? v) then Unread
  else Read (if neg then - v else v, rest).

(** A negative number makes the old parser fail, at the separator that
    follows the field or at the check of the calendar. *)
Definition legacy_value (s : string) (k : Z -> partial) : reading (partial * string) :=
  match legacy_number s with
  | Read (v, rest) => if v <? 0 then NoRead else Read (k v, rest)
  | NoRead => NoRead
  | Unread => Unread
  end.

Definition legacy_field (f : field) (p : partial) (s : string)
  : reading (partial * string) :=
  let '(y, m, d) := p in
  match f with
  | F_lit c =>
      match s with
      | String a rest => if (a =? c)%char then Read (p, rest) else NoRead
      | EmptyString => NoRead
      end
  | _ =>
      match skip_blanks s with
      | EmptyString => NoRead
      | t =>
          match f with
          | F_MMM =>
              match legacy_month t with
              | Some (i, n) => Read ((y, Some i, d), substring n (length t - n) t)
              | None => NoRead
              end
          | F_MM => legacy_value t (fun v => (y, Some v, d))
          | F_d | F_dd => legacy_value t (fun v => (y, m, Some v))
          | F_yyyy => legacy_value t (fun v => (Some v, m, d))
          | F_lit _ => NoRead
          end
      end
  end.

Fixpoint legacy_fields (fs : list field) (p : partial) (s : string)
  : reading (partial * string) :=
  match fs with
  | [] => Read (p, s)
  | f :: tl =>
      match legacy_field f p s with
      | Read (p', rest) => legacy_fields tl p' rest
      | NoRead => NoRead
      | Unread => Unread
      end
  end.

(** The calendar of the old parser: every fourth year is a leap year up to
    1582. *)
Definition legacy_days_in_month (y m : Z) : Z :=
  if m =? 2 then
    (if (if y <=? 1582 then y mod 4 =? 0 else leap y) then 29 else 28)
  else if (m =? 4) || (m =? 6) || (m =? 9) || (m =? 11) then 30
  else 31.

(** The first year that a timestamp of Spark does not hold in full. *)
Definition LAST_YEAR : Z := 294247.

(** The day read, for the old parser. Not settled here: the ten days that
    October 1582 skips, and the years from [LAST_YEAR] on, where the
    timestamp overflows. *)
Definition legacy_date (y m d : Z) : verdict :=
  if (1 <=? y) && (1 <=? m) && (m <=? 12) && (1 <=? d) &&
     (d <=? legacy_days_in_month y m)
  then
    if LAST_YEAR <=? y then Unsure
    else if (y =? 1582) && (m =? 10) && (5 <=? d) && (d <=? 14) then Unsure
    else Accepts
  else Rejects.

Definition legacy_parse (fs : list field) (s : string) : verdict :=
  match legacy_fields fs (None, None, None) s with
  | Read ((Some y, Some m, Some d), _) => legacy_date y m d
  | Read _ => Rejects
  | NoRead => Rejects
  | Unread => Unsure
  end.

(** *** [to_date] *)

Definition is_ascii (c : ascii) : bool := (nat_of_ascii c <? 128)%nat.

Fixpoint all_ascii (s : string) : bool :=
  match s with
  | String c tl => is_ascii c && all_ascii tl
  | EmptyString => true
  end.

(** The years whose days all fit a timestamp of Spark, which [to_date]
    goes through. *)
Definition in_timestamp_range (d : date) : bool :=
  (-290307 <=? date_year d) && (date_year d <? LAST_YEAR).

(** [to_date(s, fmt)] for a text [s] that is not NULL. The date that the
    parser of Spark 3 reads; where it fails, NULL if the parser of Spark 2
    fails too, and [SparkUpgradeException] if that one reads the text.
    Modelled for ASCII text and the patterns of [supported]. *)
Definition parse_date (s fmt : string) : outcome (option date) :=
  match compile (runs fmt) with
  | Some fs =>
      if supported fs && all_ascii s then
        match new_parse fs s with
        | Some d => if in_timestamp_range d then Returns (Some d) else NotModelled
        | None =>
            match legacy_parse fs s with
            | Accepts => SparkUpgradeException
            | Rejects => Returns None
            | Unsure => NotModelled
            end
        end
      else NotModelled
  | None => NotModelled
  end.

Definition modelled_pattern (fmt : string) : bool :=
  match compile (runs fmt) with Some fs => supported fs | None => false end.

(** A NULL text gives NULL. *)
Definition to_date (x : option string) (fmt : string) : outcome (option date) :=
  match x with
  | Some s => parse_date s fmt
  | None => if modelled_pattern fmt then Returns None else NotModelled
  end.

End Spark.
Import Spark.

(** ** 3. The raw records and the flat table [games_df] *)

Module Raw.

Record platforms : Type := Platforms {
  linux : option bool;
  mac : option bool;
  windows : option bool
}.

Record data : Type := Data {
  appid : option Z;
  name : option string;
  genre : option string;
  publisher : option string;
  developer : option string;
  type : option string;
  price : option string;
  initialprice : option string;
  discount : option string;
  required_age : option string;
  positive : option string;
  negative : option string;
  languages : option string;
  owners : option string;
  ccu : option string;
  platforms_ : option platforms;
  release_date : option string
}.

Record row : Type := Row {
  id : option string;
  data_ : option data
}.

(** [F.col("data.f")] and [F.col("data.platforms.f")]: NULL as soon as a
    struct on the path is NULL. *)
Definition col {A} (f : data -> option A) (r : row) : option A :=
  match data_ r with Some d => f d | None => None end.

Definition platform (f : platforms -> option bool) (d : data) : option bool :=
  match platforms_ d with Some p => f p | None => None end.

End Raw.

Module Games.

Record t : Type := Make {
  id : option string;
  app_id : option Z;
  name : option string;
  genre_raw : option string;
  publisher : option string;
  developer : option string;
  type : option string;
  price_raw : option string;
  initialprice_raw : option string;
  discount_raw : option string;
  required_age_raw : option string;
  positive_raw : option string;
  negative_raw : option string;
  languages_raw : option string;
  owners_raw : option string;
  ccu : option string;
  platform_linux : option bool;
  platform_mac : option bool;
  platform_windows : option bool;
  release_date_raw : option string
}.

End Games.

Definition flatten (r : Raw.row) : Games.t :=
  {| Games.id := Raw.id r;
     Games.app_id := Raw.col Raw.appid r;
     Games.name := Raw.col Raw.name r;
     Games.genre_raw := Raw.col Raw.genre r;
     Games.publisher := Raw.col Raw.publisher r;
     Games.developer := Raw.col Raw.developer r;
     Games.type := Raw.col Raw.type r;
     Games.price_raw := Raw.col Raw.price r;
     Games.initialprice_raw := Raw.col Raw.initialprice r;
     Games.discount_raw := Raw.col Raw.discount r;
     Games.required_age_raw := Raw.col Raw.required_age r;
     Games.positive_raw := Raw.col Raw.positive r;
     Games.negative_raw := Raw.col Raw.negative r;
     Games.languages_raw := Raw.col Raw.languages r;
     Games.owners_raw := Raw.col Raw.owners r;
     Games.ccu := Raw.col Raw.ccu r;
     Games.platform_linux := Raw.col (Raw.platform Raw.linux) r;
     Games.platform_mac := Raw.col (Raw.platform Raw.mac) r;
     Games.platform_windows := Raw.col (Raw.platform Raw.windows) r;
     Games.release_date_raw := Raw.col Raw.release_date r |}.

Definition build_games_df (df : list Raw.row) : list Games.t :=
  map flatten df.

(** ** 4.1 Numeric columns *)

Section Numeric.

(** The cast of a text to [double] (Java's [Double.parseDouble] behind it),
    NULL when the text is not a number. *)
Variable string_to_double : string -> option float.

Definition cast_double (x : option string) : option float :=
  match x with Some s => string_to_double s | None => None end.

Definition price (g : Games.t) : option float := cast_double (Games.price_raw g).
Definition initialprice (g : Games.t) : option float :=
  cast_double (Games.initialprice_raw g).
Definition discount (g : Games.t) : option float :=
  cast_double (Games.discount_raw g).

Definition price_eur (g : Games.t) : option float := div_const (price g) 100.
Definition initialprice_eur (g : Games.t) : option float :=
  div_const (initialprice g) 100.

End Numeric.

(** A [bigint] cast to [bigint] again (4.4.1) is itself. *)
Definition recast_long (x : option Z) : option Z := x.

Definition positive (g : Games.t) : option Z :=
  recast_long (cast_long (Games.positive_raw g)).
Definition negative (g : Games.t) : option Z :=
  recast_long (cast_long (Games.negative_raw g)).

(** The raw age is a text already; the cast to text keeps it. *)
Definition required_age_str (g : Games.t) : option string :=
  Games.required_age_raw g.

(** [(\d+)] *)
Definition re_digits : regex := Group (Plus Digit).

Definition required_age (g : Games.t) : option Z :=
  cast_int (regexp_extract1 (required_age_str g) re_digits).

Definition ccu (g : Games.t) : option Z := cast_long (Games.ccu g).

(** ** 4.2 The release date *)

(** [,] and [/] *)
Definition re_comma : regex := Chr ",".
Definition re_slash : regex := Chr "/".

(** [-(\d)(?!\d)] *)
Definition re_pad : regex := Cat (Chr "-") (Cat (Group Digit) (NotAhead Digit)).

(** 4.2.1 to 4.2.3, on one value of the column. *)
Definition clean_date (x : option string) : option string :=
  regexp_replace
    (regexp_replace
       (regexp_replace x re_comma "")
       re_slash "-")
    re_pad "-0$1".

Definition release_date_clean (g : Games.t) : option string :=
  clean_date (Games.release_date_raw g).

(** 4.2.4. The five [to_date] are tried from the left, up to the first that
    is not NULL; one that raises ends the job. *)
Definition release_date_coalesce (g : Games.t) : outcome (option date) :=
  coalesce_lazy
    [ to_date (release_date_clean g) "MMM d yyyy";
      to_date (release_date_clean g) "MMM dd yyyy";
      to_date (release_date_clean g) "yyyy-MM-dd";
      to_date (release_date_clean g) "dd MMM yyyy";
      to_date (release_date_clean g) "d MMM yyyy" ].

(** 4.2.5. The step works on the value of the column: it is not reached
    where 4.2.4 raises. *)
Definition safety (x : option date) : option date :=
  when_ (isNull x) None x.

Definition release_date_parsed (g : Games.t) : outcome (option date) :=
  outcome_map safety (release_date_coalesce g).

(** ** 4.3 Year, month and COVID period *)

Definition release_year (g : Games.t) : outcome (option Z) :=
  outcome_map year (release_date_parsed g).
Definition release_month (g : Games.t) : outcome (option Z) :=
  outcome_map month (release_date_parsed g).

Definition COVID_START_YEAR : Z := 2019.
Definition COVID_END_YEAR : Z := 2021.

Definition covid_period_of (y : option Z) : option string :=
  when_ (isNull y) (lit "unknown")
    (when_ (lt y COVID_START_YEAR) (lit "pre_covid")
       (when_ (and3 (ge y COVID_START_YEAR) (le y COVID_END_YEAR)) (lit "covid")
          (lit "post_covid"))).

Definition covid_period (g : Games.t) : outcome (option string) :=
  outcome_map covid_period_of (release_year g).

(** ** 4.4 Reviews *)

Definition total_reviews (g : Games.t) : option Z :=
  recast_long (add_long (positive g) (negative g)).

Definition positive_ratio (g : Games.t) : option float :=
  when_ (gt (total_reviews g) 0)
    (div_long (cast_long_double (positive g)) (total_reviews g))
    None.

(** ** 5.1 and 7 Platform counts *)

Definition is_true (x : option bool) : bool :=
  match x with Some true => true | _ => false end.

(** [filter("Windows = true").count()] and
    [sum(when(platform_windows == True, 1).otherwise(0))] *)
Definition platform_count (f : Games.t -> option bool) (df : list Games.t) : nat :=
  List.length (filter (fun g => is_true (f g)) df).

(** ** 6.1 Genres *)

(** [,\s*] *)
Definition re_genre_sep : regex := Cat (Chr ",") (Star Space).

Definition genre_array (g : Games.t) : option (list string) :=
  split (Games.genre_raw g) re_genre_sep.

(** The rows of [genres_exploded_df] that come from one game, each with its
    [genre]. *)
Definition exploded (g : Games.t) : list (Games.t * option string) :=
  filter (fun row => is_true (and3 (isNotNull (snd row)) (neq_str (snd row) "")))
         (map (fun x => (g, x)) (explode (genre_array g))).

Definition genres_exploded_df (df : list Games.t) : list (Games.t * option string) :=
  flat_map exploded df.

(** The genres one game has in [genres_exploded_df]. *)
Definition genres (g : Games.t) : list (option string) := map snd (exploded g).

(** ** The rules of the cleaning, stated directly on the text

    These do not go through the regular expressions; the columns above are
    compared with them below. *)

Module Rules.

Fixpoint remove_commas (s : string) : string :=
  match s with
  | EmptyString => ""
  | String c tl =>
      if (c =? ",")%char then remove_commas tl else String c (remove_commas tl)
  end.

Fixpoint slashes_to_dashes (s : string) : string :=
  match s with
  | EmptyString => ""
  | String c tl =>
      String (if (c =? "/")%char then "-"%char else c) (slashes_to_dashes tl)
  end.

Definition starts_with_digit (s : string) : bool :=
  match s with String c _ => is_digit c | EmptyString => false end.

(** [s] starts with a digit that no other digit follows. *)
Definition single_digit (s : string) : bool :=
  match s with
  | String c tl => is_digit c && negb (starts_with_digit tl)
  | EmptyString => false
  end.

Fixpoint pad_single_digits (s : string) : string :=
  match s with
  | EmptyString => ""
  | String c tl =>
      if (c =? "-")%char && single_digit tl
      then String "-" (String "0" (pad_single_digits tl))
      else String c (pad_single_digits tl)
  end.

Definition normalize (s : string) : string :=
  pad_single_digits (slashes_to_dashes (remove_commas s)).

Definition date_formats : list string :=
  ["MMM d yyyy"; "MMM dd yyyy"; "yyyy-MM-dd"; "dd MMM yyyy"; "d MMM yyyy"].

(** The first format of the list that parses [s]; NULL if none does. The
    formats after it are not tried. *)
Fixpoint first_parse (fmts : list string) (s : string) : outcome (option date) :=
  match fmts with
  | [] => Returns None
  | f :: tl =>
      match parse_date s f with
      | Returns None => first_parse tl s
      | o => o
      end
  end.

Fixpoint has_digit (s : string) : bool :=
  match s with
  | String c tl => is_digit c || has_digit tl
  | EmptyString => false
  end.

(** The longest start of [s] made of characters of the class [p], what
    follows it, and its length. *)
Fixpoint take_while (p : ascii -> bool) (s : string) : string :=
  match s with
  | String c tl => if p c then String c (take_while p tl) else ""
  | EmptyString => ""
  end.

Fixpoint drop_while (p : ascii -> bool) (s : string) : string :=
  match s with
  | String c tl => if p c then drop_while p tl else s
  | EmptyString => ""
  end.

Fixpoint count_while (p : ascii -> bool) (s : string) : nat :=
  match s with
  | String c tl => if p c then S (count_while p tl) else O
  | EmptyString => O
  end.

Definition take_digits : string -> string := take_while is_digit.

(** The first run of digits of [s], empty if [s] has no digit. *)
Fixpoint first_digit_run (s : string) : string :=
  match s with
  | String c tl => if is_digit c then take_digits s else first_digit_run tl
  | EmptyString => ""
  end.

(** The number a run of digits writes, read after [acc]. *)
Fixpoint decimal (acc : Z) (s : string) : Z :=
  match s with
  | String c tl => decimal (acc * 10 + digit_value c) tl
  | EmptyString => acc
  end.

Definition age_of_text (s : string) : option Z :=
  if has_digit s
  then (if decimal 0 (first_digit_run s) <=? int_max
        then Some (decimal 0 (first_digit_run s)) else None)
  else None.

(** The pieces of [s] between the commas, the white space that follows a
    comma left out; [after] tells that a comma, and white space only, was
    just read. *)
Fixpoint split_on_commas (after : bool) (s : string) : list string :=
  match s with
  | EmptyString => [""]
  | String c tl =>
      if (c =? ",")%char then "" :: split_on_commas true tl
      else if after && is_space c then split_on_commas true tl
      else push c (split_on_commas false tl)
  end.

Definition starts_with_space (s : string) : bool :=
  match s with String c _ => is_space c | EmptyString => false end.

Fixpoint last_char (s : string) : option ascii :=
  match s with
  | EmptyString => None
  | String c EmptyString => Some c
  | String _ tl => last_char tl
  end.

Definition ends_with_space (s : string) : bool :=
  match last_char s with Some c => is_space c | None => false end.

Definition nonempty (s : string) : bool := negb (String.eqb s "").

(** [c] does not occur in [s]. *)
Fixpoint free_of (c : ascii) (s : string) : bool :=
  match s with
  | String a tl => negb (a =? c)%char && free_of c tl
  | EmptyString => true
  end.

End Rules.
Import Rules.

(** ** Sample records *)

Definition no_data : Raw.row := Raw.Row None None.

Definition blank : Games.t := flatten no_data.

Definition with_release_date (s : string) : Games.t :=
  Games.Make None None None None None None None None None None None None None
             None None None None None None (Some s).

Definition with_genre (s : string) : Games.t :=
  Games.Make None None None (Some s) None None None None None None None None
             None None None None None None None None.

Definition with_reviews (p n : string) : Games.t :=
  Games.Make None None None None None None None None None None None (Some p)
             (Some n) None None None None None None None.

Definition with_age (s : string) : Games.t :=
  Games.Make None None None None None None None None None None (Some s) None
             None None None None None None None None.

(** A record without the identifier [id], and one with it. *)
Definition anonymous : Raw.row :=
  Raw.Row None
    (Some (Raw.Data (Some 10) (Some "Counter-Strike") (Some "Action") None None
                    None (Some "999") (Some "999") (Some "0") (Some "0")
                    (Some "124534") (Some "3339") None None None
                    (Some (Raw.Platforms (Some true) (Some true) (Some true)))
                    (Some "2000/11/1"))).

Definition identified : Raw.row :=
  Raw.Row (Some "10") (Raw.data_ anonymous).

(** A record whose [platforms] struct has no [linux] flag. *)
Definition no_linux_flag : Raw.row :=
  Raw.Row (Some "20")
    (Some (Raw.Data (Some 20) None None None None None None None None None None
                    None None None None
                    (Some (Raw.Platforms None (Some false) (Some true)))
                    None)).

(** ** Aggregates and further column functions of Spark SQL *)

Module Agg.

(** [col == True], [col == False]: NULL for a NULL flag. *)
Definition eq_lit (x : option bool) (b : bool) : option bool :=
  option_map (fun v => Bool.eqb v b) x.

(** [size]: the number of elements, -1 for NULL (the default outside ANSI
    mode). *)
Definition size {A} (x : option (list A)) : option Z :=
  match x with
  | Some l => Some (Z.of_nat (List.length l))
  | None => Some (-1)
  end.

(** The values of a column that are not NULL. *)
Fixpoint somes {A} (l : list (option A)) : list A :=
  match l with
  | [] => []
  | Some a :: tl => a :: somes tl
  | None :: tl => somes tl
  end.

(** [F.sum] over a [bigint] column: NULL values are passed over, the sum
    wraps around, and it is NULL when there is no value to add. *)
Fixpoint sum_long (l : list (option Z)) : option Z :=
  match l with
  | [] => None
  | x :: tl =>
      match x, sum_long tl with
      | Some a, Some b => Some (wrap64 (a + b))
      | Some a, None => Some a
      | None, r => r
      end
  end.

(** [F.countDistinct]: the number of distinct values, NULL not counted. *)
Definition count_distinct (l : list (option Z)) : nat :=
  List.length (nodup Z.eq_dec (somes l)).

(** A [bigint] divided by a [bigint] is a division of doubles, NULL for a
    NULL operand and for a zero divisor. *)
Definition div_longs (x y : option Z) : option float :=
  div_long (cast_long_double x) y.

(** [col > c] on a [double] column; NaN is above every number. *)
Definition gt_double (x : option float) (c : Z) : option bool :=
  option_map (fun v => PrimFloat.is_nan v || PrimFloat.ltb (long_to_double c) v) x.

(** [col > c] and [col >= c] on a [double] column for a [double] [c]. *)
Definition gt_float (x : option float) (c : float) : option bool :=
  option_map (fun v => PrimFloat.is_nan v || PrimFloat.ltb c v) x.

Definition ge_float (x : option float) (c : float) : option bool :=
  option_map (fun v => PrimFloat.is_nan v || PrimFloat.leb c v) x.

(** [groupBy] on a text column: the keys are the distinct values of the
    column, NULL among them, and the group of a key is the rows that have
    it. The order of the groups is not fixed by Spark; here it is the order
    of first appearance. *)
Definition key_dec (a b : option string) : {a = b} + {a <> b}.
Proof. decide equality. apply string_dec. Defined.

Definition key_eqb (a b : option string) : bool :=
  if key_dec a b then true else false.

Definition keys {A} (key : A -> option string) (l : list A) : list (option string) :=
  nodup key_dec (map key l).

Definition group {A} (key : A -> option string) (k : option string) (l : list A)
  : list A :=
  filter (fun x => key_eqb (key x) k) l.

(** [orderBy(F.desc(key))]: descending, NULL last. Rows with the same key
    come in any order, so the sorted table is given by a relation. *)
Definition desc_nulls_last (a b : option Z) : Prop :=
  match a, b with
  | Some x, Some y => y <= x
  | Some _, None => True
  | None, Some _ => False
  | None, None => True
  end.

Definition order_by_desc {A} (key : A -> option Z) (l sorted : list A) : Prop :=
  Permutation.Permutation l sorted /\
  Sorted.Sorted (fun a b => desc_nulls_last (key a) (key b)) sorted.

(** One such order: each row is put before the first row whose key is not
    above its own. *)
Definition desc_leb (a b : option Z) : bool :=
  match a, b with
  | Some x, Some y => y <=? x
  | Some _, None => true
  | None, Some _ => false
  | None, None => true
  end.

Fixpoint insert_desc {A} (key : A -> option Z) (x : A) (l : list A) : list A :=
  match l with
  | [] => [x]
  | y :: tl =>
      if desc_leb (key x) (key y) then x :: y :: tl
      else y :: insert_desc key x tl
  end.

Fixpoint sort_desc {A} (key : A -> option Z) (l : list A) : list A :=
  match l with
  | [] => []
  | x :: tl => insert_desc key x (sort_desc key tl)
  end.

End Agg.
Import Agg.

(** ** 5.3 and 8.5 Games per COVID period *)

(** A column over the table: the job raises if the column raises on a row.
    With a row that is not modelled, neither is the table. *)
Fixpoint collect {A} (l : list (outcome A)) : outcome (list A) :=
  match l with
  | [] => Returns []
  | o :: tl =>
      match o, collect tl with
      | Returns a, Returns r => Returns (a :: r)
      | NotModelled, _ | _, NotModelled => NotModelled
      | _, _ => SparkUpgradeException
      end
  end.

Definition covid_period_column (df : list Games.t) : outcome (list (option string)) :=
  collect (map covid_period df).

(** The [count] of the group of [covid_period = k]. *)
Definition covid_count (k : option string) (col : list (option string)) : nat :=
  List.length (group (fun p => p) k col).

Definition count_by_period (col : list (option string)) : list (option string * nat) :=
  map (fun k => (k, covid_count k col)) (keys (fun p => p) col).

(** [covid_counts], before it is ordered: one row per period met. *)
Definition covid_counts (df : list Games.t) : outcome (list (option string * nat)) :=
  outcome_map count_by_period (covid_period_column df).

(** ** 5.8 Languages *)

Definition languages_array (g : Games.t) : option (list string) :=
  split (Games.languages_raw g) re_comma.

Definition num_languages (g : Games.t) : option Z :=
  size (languages_array g).

(** ** 6.2, 6.3 and 8.3 Statistics per genre *)

Definition exploded_genre (row : Games.t * option string) : option string := snd row.

(** 6.2 [nb_games]: [countDistinct("app_id")] in the group of a genre. *)
Definition nb_games (k : option string) (rows : list (Games.t * option string)) : nat :=
  count_distinct (map (fun row => Games.app_id (fst row)) (group exploded_genre k rows)).

(** [genre_counts_df], before it is ordered. *)
Definition genre_counts_df (rows : list (Games.t * option string))
  : list (option string * nat) :=
  map (fun k => (k, nb_games k rows)) (keys exploded_genre rows).

(** 8.3 [nb_games]: [count("*")] in the group of a genre. *)
Definition nb_rows (k : option string) (rows : list (Games.t * option string)) : nat :=
  List.length (group exploded_genre k rows).

(** 6.3 *)
Record genre_reviews : Type := GenreReviews {
  gr_genre : option string;
  gr_nb_games : nat;
  sum_positive : option Z;
  sum_negative : option Z;
  sum_total_reviews : option Z;
  positive_rate : option float
}.

Definition genre_reviews_of (k : option string)
    (rows : list (Games.t * option string)) : genre_reviews :=
  let grp := group exploded_genre k rows in
  let sp := sum_long (map (fun row => positive (fst row)) grp) in
  let sn := sum_long (map (fun row => negative (fst row)) grp) in
  let st := sum_long (map (fun row => total_reviews (fst row)) grp) in
  {| gr_genre := k;
     gr_nb_games := nb_games k rows;
     sum_positive := sp;
     sum_negative := sn;
     sum_total_reviews := st;
     positive_rate := when_ (gt st 0) (div_longs sp st) None |}.

Definition genre_reviews_df (rows : list (Games.t * option string))
  : list genre_reviews :=
  map (fun k => genre_reviews_of k rows) (keys exploded_genre rows).

(** 6.4, before the rows are ordered *)
Definition MIN_REVIEWS_GENRE : Z := 10000.

#[warnings="-inexact-float"]
Definition high_potential_genres_df (rows : list (Games.t * option string))
  : list genre_reviews :=
  filter (fun s => is_true (ge_float (positive_rate s) 0.85))
    (filter (fun s => is_true (ge (sum_total_reviews s) MIN_REVIEWS_GENRE))
       (genre_reviews_df rows)).

(** ** 7.2 to 7.5 Platforms *)

(** [F.sum(F.when(c, 1).otherwise(0))] *)
Definition count_if (c : Games.t -> option bool) (df : list Games.t) : option Z :=
  sum_long (map (fun g => when_ (c g) (lit 1) (lit 0)) df).

(** 7.2 [windows_count], [mac_count], [linux_count] *)
Definition platform_agg (f : Games.t -> option bool) (df : list Games.t) : option Z :=
  count_if (fun g => eq_lit (f g) true) df.

(** 7.3 *)
Definition is_windows_only (g : Games.t) : option bool :=
  and3 (and3 (eq_lit (Games.platform_windows g) true)
             (eq_lit (Games.platform_mac g) false))
       (eq_lit (Games.platform_linux g) false).

Definition is_tri_platform (g : Games.t) : option bool :=
  and3 (and3 (eq_lit (Games.platform_windows g) true)
             (eq_lit (Games.platform_mac g) true))
       (eq_lit (Games.platform_linux g) true).

Definition is_windows_mac (g : Games.t) : option bool :=
  and3 (and3 (eq_lit (Games.platform_windows g) true)
             (eq_lit (Games.platform_mac g) true))
       (eq_lit (Games.platform_linux g) false).

Definition is_windows_linux (g : Games.t) : option bool :=
  and3 (and3 (eq_lit (Games.platform_windows g) true)
             (eq_lit (Games.platform_mac g) false))
       (eq_lit (Games.platform_linux g) true).

Record platform_profile_counts : Type := ProfileCounts {
  windows_only : option Z;
  tri_platform : option Z;
  windows_mac : option Z;
  windows_linux : option Z
}.

Definition platform_profile_df (df : list Games.t) : platform_profile_counts :=
  {| windows_only := count_if is_windows_only df;
     tri_platform := count_if is_tri_platform df;
     windows_mac := count_if is_windows_mac df;
     windows_linux := count_if is_windows_linux df |}.

(** The flag has a value. *)
Definition known (x : option bool) : bool :=
  match x with Some _ => true | None => false end.

(** 7.4 *)
Definition platform_profile (g : Games.t) : option string :=
  when_ (is_tri_platform g) (lit "Windows + macOS + Linux")
    (when_ (is_windows_mac g) (lit "Windows + macOS")
       (when_ (is_windows_linux g) (lit "Windows + Linux")
          (when_ (is_windows_only g) (lit "Windows only")
             (lit "Others")))).

Section Prices.

Variable string_to_double : string -> option float.

(** 7.5 The columns shown of a game. *)
Definition top_columns (g : Games.t)
  : option string * option float * option Z * option float :=
  (Games.name g, price string_to_double g, total_reviews g, positive_ratio g).

(** [top_windows_only] is [out] when [out] is the first ten rows of the
    games that are Windows only, ordered by [total_reviews], highest
    first. *)
Definition top_windows_only (df : list Games.t)
    (out : list (option string * option float * option Z * option float)) : Prop :=
  exists sorted,
    order_by_desc total_reviews
      (filter (fun g => is_true (eq_lit (is_windows_only g) true)) df) sorted /\
    out = map top_columns (firstn 10 sorted).

Definition top_tri_platform (df : list Games.t)
    (out : list (option string * option float * option Z * option float)) : Prop :=
  exists sorted,
    order_by_desc total_reviews
      (filter (fun g => is_true (eq_lit (is_tri_platform g) true)) df) sorted /\
    out = map top_columns (firstn 10 sorted).

(** 6.5 *)
#[warnings="-inexact-float"]
Definition blockbusters_df (rows : list (Games.t * option string))
  : list (Games.t * option string) :=
  filter (fun row => is_true (gt_double (price string_to_double (fst row)) 0))
    (filter (fun row => is_true (gt_float (positive_ratio (fst row)) 0.9))
       (filter (fun row => is_true (gt (total_reviews (fst row)) 50000)) rows)).

Definition blockbuster_genre_counts (rows : list (Games.t * option string))
  : list (option string * nat) :=
  genre_counts_df (blockbusters_df rows).

(** 8.4 *)
Definition price_success_df (df : list Games.t)
  : list (option float * option Z * option float) :=
  filter (fun row => is_true (and3 (gt (snd (fst row)) 0)
                                   (gt_double (fst (fst row)) 0)))
         (map (fun g => (price_eur string_to_double g, total_reviews g,
                         positive_ratio g)) df).

End Prices.

(** ** More rules on the text *)

Module MoreRules.

(** How many times [c] occurs in [s]. *)
Fixpoint count_char (c : ascii) (s : string) : nat :=
  match s with
  | String a tl => if (a =? c)%char then S (count_char c tl) else count_char c tl
  | EmptyString => O
  end.

(** The pieces of [s] between the commas. *)
Fixpoint pieces (s : string) : list string :=
  match s with
  | EmptyString => [""]
  | String c tl => if (c =? ",")%char then "" :: pieces tl else push c (pieces tl)
  end.

End MoreRules.
Import MoreRules.

(** ** More sample records *)

Definition with_platforms (w m l : option bool) : Games.t :=
  Games.Make None None None None None None None None None None None None None
             None None None l m w None.

Definition with_languages (s : string) : Games.t :=
  Games.Make None None None None None None None None None None None None None
             (Some s) None None None None None None.

(** A game with its Steam identifier, genres and review counters as texts. *)
Definition game (app : Z) (genres : string) (p n : option string) : Games.t :=
  Games.Make None (Some app) None (Some genres) None None None None None None
             None p n None None None None None None None.

Definition priced_game (price p n : string) : Games.t :=
  Games.Make None None None None None None None (Some price) None None None
             (Some p) (Some n) None None None None None None None.

Definition game_reviews (p n : string) (w : bool) : Games.t :=
  Games.Make None None None None None None None None None None None (Some p)
             (Some n) None None None (Some false) (Some false) (Some w) None.

(** * Properties *)

(** A boolean conjunction among the hypotheses, taken apart. *)
Ltac andb_hyp H H1 H2 := apply andb_prop in H; destruct H as [H1 H2].

(** ** Text helpers *)

Lemma succ_sub_self (n : nat) : (S n - n = 1)%nat.
Proof. lia. Qed.

Lemma substring_0_0 (s : string) : substring 0 0 s = "".
Proof. destruct s; reflexivity. Qed.

Lemma consumed_one (c : ascii) (s : string) : consumed (String c s) s = String c "".
Proof.
  unfold consumed. cbn [length]. rewrite succ_sub_self.
  cbn [substring]. now rewrite substring_0_0.
Qed.

Lemma dash_not_digit (c : ascii) : (c =? "-")%char = true -> is_digit c = false.
Proof. intros H. apply Ascii.eqb_eq in H. now subst c. Qed.

Lemma digit_not_dash (c : ascii) : is_digit c = true -> (c =? "-")%char = false.
Proof.
  intros H. destruct (c =? "-")%char eqn:E; [|reflexivity].
  apply dash_not_digit in E. congruence.
Qed.

(** ** The three replacements are the three rules *)

Lemma match_at_chr (c a : ascii) (tl : string) :
  match_at (Chr c) (String a tl) = if (c =? a)%char then Some (tl, None) else None.
Proof. reflexivity. Qed.

Lemma replace_comma (s : string) : replace_all re_comma "" s = remove_commas s.
Proof.
  unfold replace_all, re_comma.
  induction s as [|a tl IH]; [reflexivity|].
  cbn [replace_from remove_commas]. rewrite match_at_chr, Ascii.eqb_sym.
  destruct (a =? ",")%char.
  - cbn [length]. rewrite succ_sub_self. exact IH.
  - now rewrite IH.
Qed.

Lemma replace_slash (s : string) : replace_all re_slash "-" s = slashes_to_dashes s.
Proof.
  unfold replace_all, re_slash.
  induction s as [|a tl IH]; [reflexivity|].
  cbn [replace_from slashes_to_dashes]. rewrite match_at_chr, Ascii.eqb_sym.
  destruct (a =? "/")%char.
  - cbn [length]. rewrite succ_sub_self, IH. reflexivity.
  - now rewrite IH.
Qed.

Lemma match_at_pad (c : ascii) (tl : string) :
  match_at re_pad (String c tl) =
  if (c =? "-")%char && single_digit tl
  then match tl with
       | String d rest => Some (rest, Some (String d ""))
       | EmptyString => None
       end
  else None.
Proof.
  unfold match_at, re_pad. cbn [run one]. rewrite Ascii.eqb_sym.
  destruct (c =? "-")%char; [|reflexivity].
  destruct tl as [|d rest]; [reflexivity|].
  cbn [andb single_digit one]. destruct (is_digit d); [|reflexivity].
  rewrite consumed_one.
  destruct rest as [|e rest']; [reflexivity|].
  cbn [starts_with_digit andb one]. destruct (is_digit e); reflexivity.
Qed.

Lemma replace_pad (s : string) : replace_all re_pad "-0$1" s = pad_single_digits s.
Proof.
  unfold replace_all.
  induction s as [|c tl IH]; [reflexivity|].
  cbn [replace_from pad_single_digits]. rewrite match_at_pad.
  destruct ((c =? "-")%char && single_digit tl) eqn:E.
  - destruct tl as [|d rest]; [now rewrite andb_false_r in E|].
    apply andb_prop in E. destruct E as [_ E].
    cbn [single_digit] in E. apply andb_prop in E. destruct E as [Hd _].
    cbn [length]. replace (S (S (length rest)) - length rest)%nat with 2%nat by lia.
    rewrite <- IH. cbn [replace_from]. rewrite match_at_pad.
    rewrite (digit_not_dash d Hd). reflexivity.
  - now rewrite IH.
Qed.

Lemma clean_date_normalize (x : option string) :
  clean_date x = option_map normalize x.
Proof.
  unfold clean_date, regexp_replace, normalize.
  destruct x as [s|]; [|reflexivity].
  cbn [option_map]. now rewrite replace_comma, replace_slash, replace_pad.
Qed.

Lemma release_date_clean_normalize (g : Games.t) :
  release_date_clean g = option_map normalize (Games.release_date_raw g).
Proof. apply clean_date_normalize. Qed.

(** ** First match wins *)

Lemma coalesce_first_parse (c : string) (fmts : list string) :
  coalesce_lazy (map (to_date (Some c)) fmts) = first_parse fmts c.
Proof.
  induction fmts as [|f tl IH]; [reflexivity|].
  cbn [map coalesce_lazy first_parse to_date].
  destruct (parse_date c f) as [[d|]| |]; [reflexivity|exact IH|reflexivity..].
Qed.

(** What [first_parse] gives, when it is not NULL, is what one format
    gives, the formats before it all giving NULL. *)
Lemma first_parse_stops (fmts : list string) (s : string) (o : outcome (option date)) :
  o <> Returns None ->
  first_parse fmts s = o <->
  exists l1 f l2, fmts = (l1 ++ f :: l2)%list /\ parse_date s f = o /\
                  Forall (fun f' => parse_date s f' = Returns None) l1.
Proof.
  intros N. induction fmts as [|f tl IH]; cbn [first_parse].
  - split; [congruence|]. intros (l1 & f & l2 & E & _). now destruct l1.
  - destruct (parse_date s f) as [[d|]| |] eqn:P.
    2:{ rewrite IH. split.
        - intros (l1 & f' & l2 & -> & P' & A). exists (f :: l1), f', l2.
          repeat split; [exact P'|now constructor].
        - intros (l1 & f' & l2 & E & P' & A). destruct l1 as [|x l1].
          + injection E as -> _. congruence.
          + injection E as -> ->. inversion A; subst. now exists l1, f', l2. }
    all: split;
      [ intros H; exists [], f, tl; repeat split; [congruence|constructor]
      | intros (l1 & f' & l2 & E & P' & A); destruct l1 as [|x l1];
        [ injection E as -> _; congruence
        | injection E as -> _; inversion A; congruence ] ].
Qed.

Lemma first_parse_none (fmts : list string) (s : string) :
  first_parse fmts s = Returns None <->
  Forall (fun f => parse_date s f = Returns None) fmts.
Proof.
  induction fmts as [|f tl IH]; cbn [first_parse].
  - split; [constructor|reflexivity].
  - destruct (parse_date s f) as [[d|]| |] eqn:P.
    2:{ rewrite IH. split; [now constructor|]. intros A. now inversion A. }
    all: split; [discriminate|]; intros A; inversion A; congruence.
Qed.

Lemma safety_id (x : option date) : safety x = x.
Proof. now destruct x. Qed.

Lemma outcome_map_safety (o : outcome (option date)) : outcome_map safety o = o.
Proof. destruct o as [x| |]; [|reflexivity..]. cbn. now rewrite safety_id. Qed.

Lemma release_date_coalesce_first (g : Games.t) :
  release_date_coalesce g =
  match release_date_clean g with
  | Some c => first_parse date_formats c
  | None => Returns None
  end.
Proof.
  unfold release_date_coalesce.
  destruct (release_date_clean g) as [c|]; [|reflexivity].
  exact (coalesce_first_parse c date_formats).
Qed.

Lemma release_date_parsed_first (g : Games.t) :
  release_date_parsed g =
  match release_date_clean g with
  | Some c => first_parse date_formats c
  | None => Returns None
  end.
Proof.
  unfold release_date_parsed. rewrite outcome_map_safety.
  apply release_date_coalesce_first.
Qed.

(** C1. For every record, [release_date_clean] is [release_date_raw] with
    the commas removed, then every [/] turned into [-], then a [0] put in
    front of every single digit that follows a [-] and that no digit follows
    (NULL stays NULL). [release_date_parsed] is what the first of the formats
    "MMM d yyyy", "MMM dd yyyy", "yyyy-MM-dd", "dd MMM yyyy", "d MMM yyyy"
    that does not give NULL gives, the formats after it not being tried, and
    NULL exactly when all five give NULL. What that format gives is not
    always a date: on "1 Oct 2008" the first three formats give NULL and the
    fourth, "dd MMM yyyy", raises [SparkUpgradeException], although the
    fifth, "d MMM yyyy", reads the text; and so do "Oct 21, 2008 " with a
    space at its end, at the first format, and "1/2/3", at the third. *)
Theorem release_date_first_match :
  (forall g, release_date_clean g
             = option_map normalize (Games.release_date_raw g)) /\
  (forall g, release_date_parsed g =
     match release_date_clean g with
     | Some c => first_parse date_formats c
     | None => Returns None
     end) /\
  (forall g o, o <> Returns None ->
     (release_date_parsed g = o <->
      exists c l1 f l2,
        release_date_clean g = Some c /\ date_formats = (l1 ++ f :: l2)%list /\
        to_date (Some c) f = o /\
        Forall (fun f' => to_date (Some c) f' = Returns None) l1)) /\
  (forall g, release_date_parsed g = Returns None <->
     Forall (fun f => to_date (release_date_clean g) f = Returns None)
            date_formats) /\
  release_date_clean (with_release_date "1 Oct 2008") = Some "1 Oct 2008" /\
  to_date (Some "1 Oct 2008") "MMM d yyyy" = Returns None /\
  to_date (Some "1 Oct 2008") "MMM dd yyyy" = Returns None /\
  to_date (Some "1 Oct 2008") "yyyy-MM-dd" = Returns None /\
  to_date (Some "1 Oct 2008") "dd MMM yyyy" = SparkUpgradeException /\
  to_date (Some "1 Oct 2008") "d MMM yyyy" = Returns (Some (Date 2008 10 1)) /\
  release_date_parsed (with_release_date "1 Oct 2008") = SparkUpgradeException /\
  release_date_clean (with_release_date "Oct 21, 2008 ") = Some "Oct 21 2008 " /\
  to_date (Some "Oct 21 2008 ") "MMM d yyyy" = SparkUpgradeException /\
  release_date_parsed (with_release_date "Oct 21, 2008 ") = SparkUpgradeException /\
  release_date_clean (with_release_date "1/2/3") = Some "1-02-03" /\
  to_date (Some "1-02-03") "yyyy-MM-dd" = SparkUpgradeException /\
  release_date_parsed (with_release_date "1/2/3") = SparkUpgradeException.
Proof.
  split; [exact release_date_clean_normalize|].
  split; [exact release_date_parsed_first|].
  split; [|split].
  - intros g o N. rewrite release_date_parsed_first.
    destruct (release_date_clean g) as [c|].
    + rewrite (first_parse_stops date_formats c o N). split.
      * intros (l1 & f & l2 & H). now exists c, l1, f, l2.
      * intros (c' & l1 & f & l2 & E & H). injection E as <-. now exists l1, f, l2.
    + split; [congruence|]. intros (c & _ & _ & _ & E & _). discriminate.
  - intros g. rewrite release_date_parsed_first.
    destruct (release_date_clean g) as [c|].
    + apply first_parse_none.
    + split; [|reflexivity]. intros _. unfold date_formats. repeat constructor.
  - repeat split; vm_compute; reflexivity.
Qed.

(** ** The cleaning is idempotent *)

Lemma free_remove_commas (s : string) : free_of "," (remove_commas s) = true.
Proof.
  induction s as [|c tl IH]; [reflexivity|]. cbn [remove_commas].
  destruct (c =? ",")%char eqn:E; [exact IH|]. cbn [free_of]. now rewrite E, IH.
Qed.

Lemma free_slashes (s : string) : free_of "/" (slashes_to_dashes s) = true.
Proof.
  induction s as [|c tl IH]; [reflexivity|]. cbn [slashes_to_dashes free_of].
  rewrite IH. destruct (c =? "/")%char eqn:E; [reflexivity|]. now rewrite E.
Qed.

Lemma free_comma_slashes (s : string) :
  free_of "," s = true -> free_of "," (slashes_to_dashes s) = true.
Proof.
  induction s as [|c tl IH]; [reflexivity|]. cbn [slashes_to_dashes free_of].
  intros H. andb_hyp H H1 H2. rewrite (IH H2).
  destruct (c =? "/")%char; [reflexivity|]. now rewrite H1.
Qed.

Lemma free_pad (a : ascii) (s : string) :
  (a =? "0")%char = false -> (a =? "-")%char = false ->
  free_of a s = true -> free_of a (pad_single_digits s) = true.
Proof.
  intros H0 Hd. induction s as [|c tl IH]; [reflexivity|].
  cbn [pad_single_digits free_of]. intros H. andb_hyp H H1 H2. specialize (IH H2).
  destruct ((c =? "-")%char && single_digit tl); cbn [free_of].
  - rewrite IH, (Ascii.eqb_sym "0" a), (Ascii.eqb_sym "-" a), H0, Hd. reflexivity.
  - now rewrite H1, IH.
Qed.

Lemma remove_commas_free (s : string) : free_of "," s = true -> remove_commas s = s.
Proof.
  induction s as [|c tl IH]; [reflexivity|]. cbn [free_of remove_commas].
  intros H. andb_hyp H H1 H2.
  apply negb_true_iff in H1. now rewrite H1, (IH H2).
Qed.

Lemma slashes_free (s : string) : free_of "/" s = true -> slashes_to_dashes s = s.
Proof.
  induction s as [|c tl IH]; [reflexivity|]. cbn [free_of slashes_to_dashes].
  intros H. andb_hyp H H1 H2.
  apply negb_true_iff in H1. now rewrite H1, (IH H2).
Qed.

Lemma starts_with_digit_pad (s : string) :
  starts_with_digit (pad_single_digits s) = starts_with_digit s.
Proof.
  destruct s as [|c tl]; [reflexivity|]. cbn [pad_single_digits].
  destruct (c =? "-")%char eqn:E; [|reflexivity].
  cbn [andb]. destruct (single_digit tl); cbn [starts_with_digit];
    now rewrite (dash_not_digit c E).
Qed.

Lemma single_digit_pad (s : string) :
  single_digit (pad_single_digits s) = single_digit s.
Proof.
  destruct s as [|c tl]; [reflexivity|]. cbn [pad_single_digits].
  destruct (c =? "-")%char eqn:E; cbn [andb].
  - destruct (single_digit tl); cbn [single_digit];
      now rewrite (dash_not_digit c E).
  - cbn [single_digit]. now rewrite starts_with_digit_pad.
Qed.

Lemma single_digit_starts (s : string) :
  single_digit s = true -> starts_with_digit s = true.
Proof.
  destruct s as [|c tl]; [discriminate|]. cbn. intros H.
  now apply andb_prop in H.
Qed.

Lemma pad_idempotent (s : string) :
  pad_single_digits (pad_single_digits s) = pad_single_digits s.
Proof.
  induction s as [|c tl IH]; [reflexivity|]. cbn [pad_single_digits].
  destruct ((c =? "-")%char && single_digit tl) eqn:E.
  - apply andb_prop in E. destruct E as [_ E]. apply single_digit_starts in E.
    cbn [pad_single_digits single_digit]. rewrite starts_with_digit_pad, E.
    cbn. now rewrite IH.
  - cbn [pad_single_digits]. now rewrite single_digit_pad, E, IH.
Qed.

Lemma normalize_idempotent (s : string) : normalize (normalize s) = normalize s.
Proof.
  unfold normalize.
  set (t := slashes_to_dashes (remove_commas s)).
  assert (Hc : free_of "," t = true)
    by (apply free_comma_slashes, free_remove_commas).
  assert (Hs : free_of "/" t = true) by apply free_slashes.
  rewrite remove_commas_free by (apply free_pad; [reflexivity..|exact Hc]).
  rewrite slashes_free by (apply free_pad; [reflexivity..|exact Hs]).
  apply pad_idempotent.
Qed.

(** C9. The cleaning is idempotent: cleaning a date text that is already
    clean leaves it as it is. The text "2000-11-01" is left as it is, the two
    formats before "yyyy-MM-dd" do not parse it, giving NULL and raising
    nothing, and "yyyy-MM-dd" parses it as 1 November 2000, which is what
    [release_date_parsed] holds. *)
Theorem release_date_clean_idempotent :
  (forall x, clean_date (clean_date x) = clean_date x) /\
  (forall g, clean_date (release_date_clean g) = release_date_clean g) /\
  clean_date (Some "2000-11-01") = Some "2000-11-01" /\
  release_date_clean (with_release_date "2000-11-01") = Some "2000-11-01" /\
  to_date (Some "2000-11-01") "MMM d yyyy" = Returns None /\
  to_date (Some "2000-11-01") "MMM dd yyyy" = Returns None /\
  to_date (Some "2000-11-01") "yyyy-MM-dd" = Returns (Some (Date 2000 11 1)) /\
  release_date_parsed (with_release_date "2000-11-01")
  = Returns (Some (Date 2000 11 1)).
Proof.
  assert (I : forall x, clean_date (clean_date x) = clean_date x).
  { intros x. rewrite !clean_date_normalize. destruct x as [s|]; [|reflexivity].
    cbn [option_map]. now rewrite normalize_idempotent. }
  split; [exact I|]. split; [intros g; apply I|].
  repeat split; vm_compute; reflexivity.
Qed.

(** C10. The safety step 4.2.5 changes nothing: whatever the column holds,
    a date or NULL, it holds after the step, so [release_date_parsed] is the
    same column, record by record, with the step and without it; where the
    parsing raises, it raises with the step as without it. *)
Theorem safety_step_is_identity :
  (forall x, safety x = x) /\
  (forall g, release_date_parsed g = release_date_coalesce g) /\
  (forall df, map release_date_parsed df = map release_date_coalesce df) /\
  (forall col, map safety col = col).
Proof.
  split; [exact safety_id|]. split; [intros g; apply outcome_map_safety|]. split.
  - intros df. apply map_ext. intros g. apply outcome_map_safety.
  - intros col. rewrite <- (map_id col) at 2. apply map_ext, safety_id.
Qed.

(** ** The COVID period *)

Lemma covid_period_of_year (y : Z) :
  covid_period_of (Some y) =
  if y <? 2019 then Some "pre_covid"
  else if y <=? 2021 then Some "covid" else Some "post_covid".
Proof.
  unfold covid_period_of, COVID_START_YEAR, COVID_END_YEAR, lt, ge, le, cmp, lit.
  cbn [isNull when_ option_map].
  destruct (y <? 2019) eqn:E; [reflexivity|].
  apply Z.ltb_ge in E. rewrite Z.geb_leb.
  replace (2019 <=? y) with true by (symmetry; now apply Z.leb_le).
  destruct (y <=? 2021); reflexivity.
Qed.


(** ** Reviews *)

Lemma wrap64_small (z : Z) : is_long z -> wrap64 z = z.
Proof.
  unfold is_long, long_min, long_max, wrap64. intros H.
  rewrite Z.mod_small by lia. lia.
Qed.

Lemma positive_ratio_cases (g : Games.t) :
  positive_ratio g =
  match positive g, total_reviews g with
  | Some p, Some t =>
      if 0 <? t then Some (PrimFloat.div (long_to_double p) (long_to_double t))
      else None
  | _, _ => None
  end.
Proof.
  unfold positive_ratio, gt, cmp, div_long, cast_long_double.
  destruct (total_reviews g) as [t|]; cbn [option_map when_].
  - rewrite Z.gtb_ltb. destruct (0 <? t) eqn:E.
    + apply Z.ltb_lt in E. destruct (positive g) as [p|]; [|reflexivity].
      cbn [option_map]. destruct (t =? 0) eqn:E0; [|reflexivity].
      apply Z.eqb_eq in E0. lia.
    + now destruct (positive g).
  - now destruct (positive g).
Qed.

(** C3, as the code has it. For every record, [total_reviews] is NULL when
    [positive] or [negative] is NULL and otherwise their sum as a [bigint],
    which is [positive + negative] whenever that sum is in the range of the
    type; when [total_reviews > 0], [positive_ratio] is [positive] divided by
    [total_reviews]; and [positive_ratio] is NULL exactly when
    [total_reviews] is NULL or not positive (zero or below). *)
Theorem total_reviews_and_positive_ratio (g : Games.t) :
  total_reviews g =
    match positive g, negative g with
    | Some p, Some n => Some (wrap64 (p + n))
    | _, _ => None
    end /\
  (forall p n, positive g = Some p -> negative g = Some n -> is_long (p + n) ->
               total_reviews g = Some (p + n)) /\
  (forall p t, positive g = Some p -> total_reviews g = Some t -> 0 < t ->
               positive_ratio g =
               Some (PrimFloat.div (long_to_double p) (long_to_double t))) /\
  (positive_ratio g = None <->
     total_reviews g = None \/ exists t, total_reviews g = Some t /\ t <= 0).
Proof.
  assert (T : total_reviews g =
              match positive g, negative g with
              | Some p, Some n => Some (wrap64 (p + n))
              | _, _ => None
              end) by reflexivity.
  split; [exact T|]. split; [|split].
  - intros p n Hp Hn R. rewrite T, Hp, Hn. now rewrite wrap64_small.
  - intros p t Hp Ht R. rewrite positive_ratio_cases, Hp, Ht.
    now replace (0 <? t) with true by (symmetry; now apply Z.ltb_lt).
  - rewrite positive_ratio_cases.
    destruct (total_reviews g) as [t|] eqn:Et.
    + destruct (positive g) as [p|] eqn:Ep.
      * destruct (0 <? t) eqn:E; [apply Z.ltb_lt in E | apply Z.ltb_ge in E]; split.
        -- discriminate.
        -- intros [H|(t' & H & R)]; [discriminate|]. injection H as <-. lia.
        -- intros _. right. now exists t.
        -- reflexivity.
      * rewrite T in Et. discriminate.
    + destruct (positive g); split; auto.
Qed.

#[warnings="-inexact-float"]
Lemma total_reviews_and_positive_ratio_witness :
  total_reviews (with_reviews "90" "10") = Some 100 /\
  positive_ratio (with_reviews "90" "10") = Some 0.9%float.
Proof.
  split.
  - apply (proj1 (proj2 (total_reviews_and_positive_ratio (with_reviews "90" "10")))
             90 10); [reflexivity|reflexivity|].
    unfold is_long, long_min, long_max. lia.
  - apply (proj1 (proj2 (proj2
             (total_reviews_and_positive_ratio (with_reviews "90" "10")))) 90 100);
      [reflexivity|reflexivity|lia].
Defined.

(** C3 as the spec words it fails twice: a total below zero is neither NULL
    nor zero and has a NULL ratio; and a sum beyond the [bigint] range is
    not what [total_reviews] holds. *)
Lemma positive_ratio_null_below_zero :
  total_reviews (with_reviews "-1" "0") = Some (-1) /\
  positive_ratio (with_reviews "-1" "0") = None /\
  positive (with_reviews "9223372036854775807" "1") = Some 9223372036854775807 /\
  negative (with_reviews "9223372036854775807" "1") = Some 1 /\
  total_reviews (with_reviews "9223372036854775807" "1")
    = Some (-9223372036854775808) /\
  total_reviews (with_reviews "9223372036854775807" "1")
    <> Some (9223372036854775807 + 1).
Proof.
  repeat split; try (vm_compute; reflexivity).
  vm_compute. discriminate.
Qed.

(** ** The flat table *)

(** C6, as the code has it. [build_games_df] drops nothing and counts
    nothing: the flat table has one row for every input record, in the same
    order, whether the record has its identifier or not; a record without
    [id] gives a row whose [id] is NULL. *)
Theorem build_games_df_keeps_every_record (df : list Raw.row) :
  List.length (build_games_df df) = List.length df /\
  map Games.id (build_games_df df) = map Raw.id df /\
  build_games_df df = map flatten df /\
  (forall i r, nth_error df i = Some r ->
               nth_error (build_games_df df) i = Some (flatten r)).
Proof.
  unfold build_games_df. split; [apply length_map|]. split; [|split].
  - rewrite map_map. reflexivity.
  - reflexivity.
  - intros i r H. now apply map_nth_error.
Qed.

(** C6 as the spec words it fails: a record without identifier is in the
    flat table. *)
Lemma record_without_id_is_kept :
  Raw.id anonymous = None /\
  build_games_df [identified; anonymous] = [flatten identified; flatten anonymous] /\
  In (flatten anonymous) (build_games_df [identified; anonymous]) /\
  Games.id (flatten anonymous) = None /\
  List.length (build_games_df [identified; anonymous]) = 2%nat.
Proof.
  repeat split. right. left. reflexivity.
Qed.

(** ** Platform flags *)

(** A flag is absent when the record has no [data], or [data] has no
    [platforms], or [platforms] has no value for the flag. *)
Lemma platform_absent_null (f : Raw.platforms -> option bool) (r : Raw.row) :
  Raw.col (Raw.platform f) r = None <->
  Raw.data_ r = None \/
  (exists d, Raw.data_ r = Some d /\ Raw.platforms_ d = None) \/
  (exists d p, Raw.data_ r = Some d /\ Raw.platforms_ d = Some p /\ f p = None).
Proof.
  unfold Raw.col, Raw.platform.
  destruct (Raw.data_ r) as [d|]; [|split; auto].
  destruct (Raw.platforms_ d) as [p|] eqn:E.
  - split.
    + intros H. right. right. now exists d, p.
    + intros [H|[(d' & H & H')|(d' & p' & H & H' & H'')]]; try discriminate.
      * injection H as <-. congruence.
      * injection H as <-. congruence.
  - split; [|reflexivity]. intros _. right. left. now exists d.
Qed.

(** C8, as the code has it. For every record, each of [platform_windows],
    [platform_mac], [platform_linux] is NULL, not false, exactly when the
    flag is absent from the record, and is the flag otherwise; a row whose
    flag is NULL does not count for the platform. *)
Theorem absent_platform_flag_is_null (r : Raw.row) :
  (Games.platform_windows (flatten r) = None <->
     Raw.data_ r = None \/
     (exists d, Raw.data_ r = Some d /\ Raw.platforms_ d = None) \/
     (exists d p, Raw.data_ r = Some d /\ Raw.platforms_ d = Some p /\
                  Raw.windows p = None)) /\
  (Games.platform_mac (flatten r) = None <->
     Raw.data_ r = None \/
     (exists d, Raw.data_ r = Some d /\ Raw.platforms_ d = None) \/
     (exists d p, Raw.data_ r = Some d /\ Raw.platforms_ d = Some p /\
                  Raw.mac p = None)) /\
  (Games.platform_linux (flatten r) = None <->
     Raw.data_ r = None \/
     (exists d, Raw.data_ r = Some d /\ Raw.platforms_ d = None) \/
     (exists d p, Raw.data_ r = Some d /\ Raw.platforms_ d = Some p /\
                  Raw.linux p = None)) /\
  (forall f, f (flatten r) = None -> platform_count f (build_games_df [r]) = 0%nat).
Proof.
  repeat split; try apply platform_absent_null.
  intros f H. unfold platform_count. cbn. now rewrite H.
Qed.

(** C8 as the spec words it fails: the [linux] flag is absent and
    [platform_linux] is NULL, which is not false. *)
Lemma absent_linux_flag_not_false :
  Raw.col (Raw.platform Raw.linux) no_linux_flag = None /\
  Games.platform_linux (flatten no_linux_flag) = None /\
  Games.platform_linux (flatten no_linux_flag) <> Some false.
Proof.
  repeat split. discriminate.
Qed.

(** ** Greedy repetition of a character class *)

Lemma star_class (p : ascii -> bool) (r : regex)
    (Hr : forall s g k, run r s g k = one p s g k)
    (k : cont) (Hk : forall s g, k s g <> None) :
  forall n s g, (length s <= n)%nat ->
                star (run r) n s g k = k (drop_while p s) g.
Proof.
  induction n as [|n IH]; intros s g Hn.
  - destruct s; [reflexivity|cbn in Hn; lia].
  - cbn [star]. rewrite Hr. destruct s as [|c tl]; [reflexivity|].
    cbn [one drop_while]. destruct (p c); [|reflexivity].
    cbn [length] in *. replace (length tl <? S (length tl))%nat with true
      by (symmetry; apply Nat.ltb_lt; lia).
    rewrite IH by lia.
    destruct (k (drop_while p tl) g) eqn:E; [reflexivity|]. now apply Hk in E.
Qed.

Lemma length_drop_while (p : ascii -> bool) (s : string) :
  length s = (count_while p s + length (drop_while p s))%nat.
Proof.
  induction s as [|c tl IH]; [reflexivity|]. cbn [count_while drop_while].
  destruct (p c); cbn [length]; lia.
Qed.

Lemma substring_count_while (p : ascii -> bool) (s : string) :
  substring 0 (count_while p s) s = take_while p s.
Proof.
  induction s as [|c tl IH]; [reflexivity|]. cbn [count_while take_while].
  destruct (p c); [|reflexivity]. cbn [substring]. now rewrite IH.
Qed.

(** ** The genres *)

Lemma match_at_genre_sep (c : ascii) (tl : string) :
  match_at re_genre_sep (String c tl) =
  if (c =? ",")%char then Some (drop_while is_space tl, None) else None.
Proof.
  unfold match_at, re_genre_sep. cbn [run one]. rewrite Ascii.eqb_sym.
  destruct (c =? ",")%char; [|reflexivity].
  now rewrite (star_class is_space Space) by (try discriminate; auto).
Qed.

Lemma space_not_comma (c : ascii) : is_space c = true -> (c =? ",")%char = false.
Proof.
  intros H. destruct (c =? ",")%char eqn:E; [|reflexivity].
  apply Ascii.eqb_eq in E. subst c. discriminate.
Qed.

Lemma split_genre_sep (s : string) :
  split_from re_genre_sep 0 s = split_on_commas false s /\
  split_from re_genre_sep (count_while is_space s) s = split_on_commas true s.
Proof.
  induction s as [|c tl [IH0 IH1]]; [split; reflexivity|].
  assert (H0 : split_from re_genre_sep 0 (String c tl)
               = split_on_commas false (String c tl)).
  { cbn [split_from split_on_commas]. rewrite match_at_genre_sep.
    destruct (c =? ",")%char.
    - cbn [length]. rewrite (length_drop_while is_space tl) at 1.
      replace (S (count_while is_space tl + length (drop_while is_space tl))
               - length (drop_while is_space tl))%nat
        with (S (count_while is_space tl)) by lia.
      now rewrite IH1.
    - cbn [andb]. now rewrite IH0. }
  split; [exact H0|].
  cbn [count_while]. destruct (is_space c) eqn:E.
  - cbn [split_from split_on_commas]. rewrite (space_not_comma c E), E. exact IH1.
  - rewrite H0. cbn [split_on_commas]. rewrite E. now rewrite andb_false_r.
Qed.

Lemma split_all_genre_sep (s : string) :
  split_all re_genre_sep s = split_on_commas false s.
Proof. apply split_genre_sep. Qed.

Lemma tl_push (c : ascii) (l : list string) : List.tl (push c l) = List.tl l.
Proof. now destruct l. Qed.

Lemma split_on_commas_no_leading_space (s : string) :
  Forall (fun t => starts_with_space t = false) (split_on_commas true s) /\
  Forall (fun t => starts_with_space t = false) (List.tl (split_on_commas false s)).
Proof.
  induction s as [|c tl [IH1 IH0]]; [split; repeat constructor|].
  cbn [split_on_commas]. destruct (c =? ",")%char eqn:Ec.
  - split; [constructor; [reflexivity|exact IH1]|exact IH1].
  - cbn [andb]. split; [|now rewrite tl_push].
    destruct (is_space c) eqn:Es; [exact IH1|].
    destruct (split_on_commas false tl) as [|t ts]; cbn [push].
    + repeat constructor. exact Es.
    + constructor; [exact Es|exact IH0].
Qed.

Lemma genres_of_array (g : Games.t) :
  genres g =
  match genre_array g with
  | Some l => map Some (filter nonempty l)
  | None => []
  end.
Proof.
  unfold genres, exploded. destruct (genre_array g) as [l|]; [|reflexivity].
  cbn [explode]. induction l as [|t l IH]; [reflexivity|].
  cbn [map filter snd]. unfold nonempty at 1.
  cbn [isNotNull neq_str option_map and3 is_true].
  destruct (t =? "")%string; cbn [negb is_true].
  - exact IH.
  - cbn [map snd]. f_equal. exact IH.
Qed.

Lemma genre_array_split (g : Games.t) :
  genre_array g = option_map (split_on_commas false) (Games.genre_raw g).
Proof.
  unfold genre_array, split. destruct (Games.genre_raw g) as [s|]; [|reflexivity].
  cbn [option_map]. now rewrite split_all_genre_sep.
Qed.

(** C4, as the code has it. For every record, the genres are the pieces of
    [genre_raw] between the commas, the white space that follows a comma left
    out, with the empty pieces dropped and nothing trimmed: no genre is the
    empty text and no genre after the first piece starts with white space,
    but a genre may end with white space (and the first piece may start with
    it); "Action, Indie ,RPG" gives "Action", "Indie " and "RPG". *)
Theorem genres_split_on_commas (g : Games.t) :
  genre_array g = option_map (split_on_commas false) (Games.genre_raw g) /\
  genres g =
    match Games.genre_raw g with
    | Some s => map Some (filter nonempty (split_on_commas false s))
    | None => []
    end /\
  Forall (fun x => exists t, x = Some t /\ t <> "") (genres g) /\
  match genre_array g with
  | Some l => Forall (fun t => starts_with_space t = false) (List.tl l)
  | None => True
  end /\
  genres (with_genre "Action, Indie ,RPG") = [Some "Action"; Some "Indie "; Some "RPG"].
Proof.
  split; [apply genre_array_split|].
  assert (G := genres_of_array g). rewrite genre_array_split in *.
  destruct (Games.genre_raw g) as [s|]; cbn [option_map] in *.
  - split; [exact G|]. split; [|split].
    + rewrite G. apply Forall_forall. intros x Hx. apply in_map_iff in Hx.
      destruct Hx as (t & <- & Ht). apply filter_In in Ht. destruct Ht as [_ Ht].
      exists t. split; [reflexivity|]. intros ->. discriminate.
    + apply split_on_commas_no_leading_space.
    + vm_compute. reflexivity.
  - rewrite G. repeat split. constructor.
Qed.

(** C4 as the spec words it fails: nothing trims the pieces, and
    "Action, Indie ,RPG" gives "Indie " with its white space at the end. *)
Lemma genre_keeps_trailing_space :
  genres (with_genre "Action, Indie ,RPG") = [Some "Action"; Some "Indie "; Some "RPG"] /\
  genres (with_genre "Action, Indie ,RPG") <> [Some "Action"; Some "Indie"; Some "RPG"] /\
  In (Some "Indie ") (genres (with_genre "Action, Indie ,RPG")) /\
  ends_with_space "Indie " = true.
Proof.
  repeat split; try (vm_compute; reflexivity).
  - vm_compute. discriminate.
  - vm_compute. right. left. reflexivity.
Qed.

(** C7. For every record whose [genre_raw] is NULL or the empty text, the
    record has no genre and no row in [genres_exploded_df]. *)
Theorem no_genre_no_row (g : Games.t) :
  Games.genre_raw g = None \/ Games.genre_raw g = Some "" ->
  genres g = [] /\ exploded g = [] /\ genres_exploded_df [g] = [].
Proof.
  intros H. assert (E : exploded g = []).
  { unfold exploded, genre_array. destruct H as [-> | ->]; reflexivity. }
  unfold genres, genres_exploded_df. cbn [flat_map]. rewrite E. repeat split.
Qed.

Lemma no_genre_no_row_witness :
  (genres blank = [] /\ exploded blank = [] /\ genres_exploded_df [blank] = []) /\
  (genres (with_genre "") = [] /\ exploded (with_genre "") = [] /\
   genres_exploded_df [with_genre ""] = []).
Proof.
  split.
  - apply (no_genre_no_row blank). left. reflexivity.
  - apply (no_genre_no_row (with_genre "")). right. reflexivity.
Defined.

(** The column [genre_array] itself is not empty for the empty text: it
    holds the empty text once, which the filter of 6.1 then drops; for NULL
    it is NULL. *)
Remark genre_array_of_empty :
  genre_array (with_genre "") = Some [""] /\ genre_array blank = None.
Proof. split; reflexivity. Qed.

(** ** Numeric casts and the age *)

Lemma digit_code (c : ascii) :
  is_digit c = true -> (48 <= nat_of_ascii c <= 57)%nat.
Proof.
  unfold is_digit, in_range. intros H. andb_hyp H H1 H2.
  apply Nat.leb_le in H1, H2. exact (conj H1 H2).
Qed.

Lemma digit_not_char (c a : ascii) :
  (nat_of_ascii a < 48)%nat -> is_digit c = true -> (c =? a)%char = false.
Proof.
  intros Ha H. apply digit_code in H. destruct (c =? a)%char eqn:E; [|reflexivity].
  apply Ascii.eqb_eq in E. subst c. lia.
Qed.

Lemma digit_not_blank (c : ascii) : is_digit c = true -> is_blank c = false.
Proof.
  intros H. apply digit_code in H. unfold is_blank.
  apply orb_false_iff. split; [apply Nat.leb_gt|apply Nat.eqb_neq]; lia.
Qed.

Lemma digit_value_range (c : ascii) : is_digit c = true -> 0 <= digit_value c <= 9.
Proof. intros H. apply digit_code in H. unfold digit_value. lia. Qed.

Lemma all_digits_take (s : string) : all_digits (take_digits s) = true.
Proof.
  induction s as [|c tl IH]; [reflexivity|]. unfold take_digits in *.
  cbn [take_while]. destruct (is_digit c) eqn:E; [|reflexivity].
  cbn [all_digits]. now rewrite E, IH.
Qed.

Lemma rtrim_digits (s : string) : all_digits s = true -> rtrim s = s.
Proof.
  induction s as [|c tl IH]; [reflexivity|]. cbn [all_digits rtrim].
  intros H. andb_hyp H Hc Ht.
  rewrite (IH Ht). destruct tl; [|reflexivity]. now rewrite (digit_not_blank c Hc).
Qed.

Lemma read_integer_digits (s : string) :
  all_digits s = true -> forall acc, read_integer acc s = Some (decimal acc s).
Proof.
  induction s as [|c tl IH]; [reflexivity|]. cbn [all_digits read_integer decimal].
  intros H acc. andb_hyp H Hc Ht.
  rewrite (digit_not_char c "." ltac:(cbn; lia) Hc), Hc. now apply IH.
Qed.

Lemma decimal_nonneg (s : string) :
  all_digits s = true -> forall acc, 0 <= acc -> 0 <= decimal acc s.
Proof.
  induction s as [|c tl IH]; [intros _ acc H; exact H|]. cbn [all_digits decimal].
  intros H acc Ha. andb_hyp H Hc Ht.
  apply (IH Ht). apply digit_value_range in Hc. lia.
Qed.

(** A run of digits that starts with a digit casts to the number it writes
    when that number fits. *)
Lemma to_integral_digits (lo hi : Z) (c : ascii) (tl : string) :
  lo <= 0 -> is_digit c = true -> all_digits tl = true ->
  to_integral lo hi (String c tl) =
  if decimal 0 (String c tl) <=? hi then Some (decimal 0 (String c tl)) else None.
Proof.
  intros Hlo Hc Ht.
  assert (A : all_digits (String c tl) = true) by (cbn; now rewrite Hc, Ht).
  unfold to_integral. cbn [ltrim]. rewrite (digit_not_blank c Hc), (rtrim_digits _ A).
  rewrite (digit_not_char c "-" ltac:(cbn; lia) Hc).
  rewrite (digit_not_char c "+" ltac:(cbn; lia) Hc). cbn [orb andb].
  rewrite (read_integer_digits _ A).
  assert (N := decimal_nonneg _ A 0 ltac:(lia)).
  replace (lo <=? decimal 0 (String c tl)) with true
    by (symmetry; apply Z.leb_le; lia).
  reflexivity.
Qed.

Lemma to_integral_range (lo hi : Z) (s : string) (v : Z) :
  to_integral lo hi s = Some v -> lo <= v <= hi.
Proof.
  unfold to_integral. destruct (rtrim (ltrim s)) as [|c tl]; [discriminate|].
  destruct (_ && _)%bool; [discriminate|].
  destruct (read_integer _ _) as [m|]; [|discriminate].
  destruct ((lo <=? _) && (_ <=? hi)) eqn:E; [|discriminate].
  intros H. injection H as <-. andb_hyp E E1 E2.
  apply Z.leb_le in E1, E2. lia.
Qed.

Lemma cast_long_range (x : option string) (v : Z) : cast_long x = Some v -> is_long v.
Proof. destruct x; [apply to_integral_range|discriminate]. Qed.

Lemma cast_int_range (x : option string) (v : Z) : cast_int x = Some v -> is_int v.
Proof. destruct x; [apply to_integral_range|discriminate]. Qed.

Lemma match_at_digits (c : ascii) (tl : string) :
  match_at re_digits (String c tl) =
  if is_digit c
  then Some (drop_while is_digit tl, Some (String c (take_digits tl)))
  else None.
Proof.
  unfold match_at, re_digits. cbn [run one]. destruct (is_digit c); [|reflexivity].
  rewrite (star_class is_digit Digit) by (try discriminate; auto).
  unfold consumed. cbn [length]. rewrite (length_drop_while is_digit tl) at 1.
  replace (S (count_while is_digit tl + length (drop_while is_digit tl))
           - length (drop_while is_digit tl))%nat
    with (S (count_while is_digit tl)) by lia.
  cbn [substring]. now rewrite substring_count_while.
Qed.

Lemma find_digits (s : string) :
  match find re_digits s with
  | Some (_, g) => group1 g
  | None => ""
  end = first_digit_run s.
Proof.
  induction s as [|c tl IH]; [reflexivity|].
  cbn [find first_digit_run]. rewrite match_at_digits.
  unfold take_digits. cbn [take_while].
  destruct (is_digit c); [reflexivity|exact IH].
Qed.

Lemma first_digit_run_digits (s : string) :
  has_digit s = true ->
  exists c tl, first_digit_run s = String c tl /\
               is_digit c = true /\ all_digits tl = true.
Proof.
  induction s as [|c tl IH]; [discriminate|]. cbn [has_digit first_digit_run].
  destruct (is_digit c) eqn:E.
  - intros _. exists c, (take_digits tl). unfold take_digits. cbn [take_while].
    rewrite E. repeat split. apply all_digits_take.
  - exact IH.
Qed.

Lemma first_digit_run_none (s : string) :
  has_digit s = false -> first_digit_run s = "".
Proof.
  induction s as [|c tl IH]; [reflexivity|]. cbn [has_digit first_digit_run].
  destruct (is_digit c); [discriminate|exact IH].
Qed.

Lemma required_age_of_text (g : Games.t) :
  required_age g =
  match Games.required_age_raw g with
  | Some s => age_of_text s
  | None => None
  end.
Proof.
  unfold required_age, required_age_str, regexp_extract1.
  destruct (Games.required_age_raw g) as [s|]; [|reflexivity].
  cbn [option_map cast_int]. rewrite find_digits. unfold age_of_text.
  destruct (has_digit s) eqn:H.
  - destruct (first_digit_run_digits s H) as (c & tl & -> & Hc & Ht).
    apply to_integral_digits; [unfold int_min; lia|exact Hc|exact Ht].
  - now rewrite (first_digit_run_none s H).
Qed.

(** C5. For every record, each numeric cast gives a value of its type or
    NULL: [price], [initialprice] and [discount] a [double] or NULL,
    [positive] and [negative] a [bigint] in range or NULL; and
    [required_age] is the first run of digits of the age text, wherever it
    stands, cast to [int]: NULL when the text is NULL or has no digit, the
    number written when it fits an [int] (NULL when it does not). *)
Theorem numeric_casts_total (string_to_double : string -> option float) (g : Games.t) :
  (price string_to_double g = None \/ exists v, price string_to_double g = Some v) /\
  (initialprice string_to_double g = None \/
   exists v, initialprice string_to_double g = Some v) /\
  (discount string_to_double g = None \/
   exists v, discount string_to_double g = Some v) /\
  (positive g = None \/ exists v, positive g = Some v /\ is_long v) /\
  (negative g = None \/ exists v, negative g = Some v /\ is_long v) /\
  (required_age g = None \/ exists v, required_age g = Some v /\ is_int v) /\
  required_age g =
    match Games.required_age_raw g with
    | Some s =>
        if has_digit s
        then (if decimal 0 (first_digit_run s) <=? int_max
              then Some (decimal 0 (first_digit_run s)) else None)
        else None
    | None => None
    end /\
  required_age (with_age "MA 15+") = Some 15 /\
  required_age (with_age "Mature") = None.
Proof.
  repeat split.
  - destruct (price string_to_double g) as [v|]; [right; now exists v|now left].
  - destruct (initialprice string_to_double g) as [v|]; [right; now exists v|now left].
  - destruct (discount string_to_double g) as [v|]; [right; now exists v|now left].
  - destruct (positive g) as [v|] eqn:E; [right|now left].
    exists v. split; [reflexivity|]. exact (cast_long_range _ _ E).
  - destruct (negative g) as [v|] eqn:E; [right|now left].
    exists v. split; [reflexivity|]. exact (cast_long_range _ _ E).
  - destruct (required_age g) as [v|] eqn:E; [right|now left].
    exists v. split; [reflexivity|]. exact (cast_int_range _ _ E).
  - apply required_age_of_text.
Qed.

(** ** The notebook on sample records *)

Example release_date_oct_21_2008 :
  release_date_clean (with_release_date "Oct 21, 2008") = Some "Oct 21 2008" /\
  release_date_parsed (with_release_date "Oct 21, 2008")
  = Returns (Some (Date 2008 10 21)) /\
  release_year (with_release_date "Oct 21, 2008") = Returns (Some 2008) /\
  release_month (with_release_date "Oct 21, 2008") = Returns (Some 10) /\
  covid_period (with_release_date "Oct 21, 2008") = Returns (Some "pre_covid").
Proof. repeat split; vm_compute; reflexivity. Qed.

Example release_date_2000_11_1 :
  release_date_clean (with_release_date "2000/11/1") = Some "2000-11-01" /\
  release_date_parsed (with_release_date "2000/11/1")
  = Returns (Some (Date 2000 11 1)).
Proof. split; vm_compute; reflexivity. Qed.

Example release_date_tba :
  release_date_parsed (with_release_date "TBA") = Returns None /\
  release_date_parsed (with_release_date "Coming soon") = Returns None /\
  release_date_parsed (with_release_date "31 Feb 2020") = Returns None /\
  covid_period (with_release_date "TBA") = Returns (Some "unknown") /\
  covid_period blank = Returns (Some "unknown").
Proof. repeat split; vm_compute; reflexivity. Qed.

(** Year 0 and a year of five digits with its sign are read. *)
Example release_date_far_years :
  release_date_parsed (with_release_date "0000-01-01")
  = Returns (Some (Date 0 1 1)) /\
  covid_period (with_release_date "0000-01-01") = Returns (Some "pre_covid") /\
  release_date_parsed (with_release_date "+12345-01-01")
  = Returns (Some (Date 12345 1 1)) /\
  covid_period (with_release_date "+12345-01-01") = Returns (Some "post_covid") /\
  release_date_parsed (with_release_date "12345-01-01") = SparkUpgradeException.
Proof. repeat split; vm_compute; reflexivity. Qed.

(** A day of one digit is read by "MMM d yyyy", so "MMM dd yyyy", which
    would raise on it, is not tried. *)
Example release_date_jan_1_2008 :
  to_date (Some "Jan 1 2008") "MMM d yyyy" = Returns (Some (Date 2008 1 1)) /\
  to_date (Some "Jan 1 2008") "MMM dd yyyy" = SparkUpgradeException /\
  release_date_parsed (with_release_date "Jan 1, 2008")
  = Returns (Some (Date 2008 1 1)).
Proof. repeat split; vm_compute; reflexivity. Qed.

Example reviews_zero :
  total_reviews (with_reviews "0" "0") = Some 0 /\
  positive_ratio (with_reviews "0" "0") = None /\
  total_reviews (with_reviews "12" "many") = None /\
  positive_ratio blank = None.
Proof. repeat split; vm_compute; reflexivity. Qed.

Example flat_row_of_record :
  Games.app_id (flatten anonymous) = Some 10 /\
  Games.platform_windows (flatten anonymous) = Some true /\
  release_date_parsed (flatten anonymous) = Returns (Some (Date 2000 11 1)) /\
  total_reviews (flatten anonymous) = Some 127873 /\
  platform_count Games.platform_linux
    (build_games_df [identified; anonymous; no_linux_flag]) = 2%nat.
Proof. repeat split; vm_compute; reflexivity. Qed.

(** * Further properties of the notebook *)

(** ** Sums and counts *)

Lemma wrap64_add_r (a b : Z) : wrap64 (a + wrap64 b) = wrap64 (a + b).
Proof.
  unfold wrap64.
  replace (a + ((b + 2 ^ 63) mod 2 ^ 64 - 2 ^ 63) + 2 ^ 63)
    with (a + (b + 2 ^ 63) mod 2 ^ 64) by lia.
  rewrite Z.add_mod_idemp_r by lia. f_equal. f_equal. lia.
Qed.

Lemma wrap64_add_l (a b : Z) : wrap64 (wrap64 a + b) = wrap64 (a + b).
Proof. now rewrite Z.add_comm, wrap64_add_r, Z.add_comm. Qed.

Lemma count_if_filter (c : Games.t -> option bool) (df : list Games.t) :
  count_if c df =
  match df with
  | [] => None
  | _ :: _ =>
      Some (wrap64 (Z.of_nat (List.length (filter (fun g => is_true (c g)) df))))
  end.
Proof.
  unfold count_if. induction df as [|g tl IH]; [reflexivity|].
  cbn [map sum_long filter]. rewrite IH. clear IH.
  assert (W : when_ (c g) (lit 1) (lit 0) = Some (if is_true (c g) then 1 else 0)).
  { destruct (c g) as [[|]|]; reflexivity. }
  rewrite W. destruct tl as [|g' tl'].
  - destruct (is_true (c g)); reflexivity.
  - rewrite wrap64_add_r. do 2 f_equal.
    destruct (is_true (c g)); cbn [List.length]; lia.
Qed.

Lemma is_true_eq_lit (x : option bool) : is_true (eq_lit x true) = is_true x.
Proof. now destruct x as [[|]|]. Qed.

Lemma filter_length_le {A} (p : A -> bool) (l : list A) :
  (List.length (filter p l) <= List.length l)%nat.
Proof.
  induction l as [|x tl IH]; [apply Nat.le_refl|].
  cbn [filter]. destruct (p x); cbn [List.length]; lia.
Qed.

(** X1. The count of a platform by aggregation (7.2) is the count by filter
    (5.1) on every table that has a row, up to the [bigint] range; on the
    empty table the filter counts 0 and the aggregation gives NULL. *)
Theorem platform_agg_is_platform_count (f : Games.t -> option bool) (df : list Games.t) :
  platform_agg f df =
    match df with
    | [] => None
    | _ :: _ => Some (wrap64 (Z.of_nat (platform_count f df)))
    end /\
  (df <> [] /\ Z.of_nat (List.length df) <= long_max ->
   platform_agg f df = Some (Z.of_nat (platform_count f df))) /\
  (df = [] -> platform_agg f df = None /\ platform_count f df = 0%nat).
Proof.
  assert (E : platform_agg f df =
              match df with
              | [] => None
              | _ :: _ => Some (wrap64 (Z.of_nat (platform_count f df)))
              end).
  { unfold platform_agg, platform_count. rewrite count_if_filter.
    destruct df as [|g tl]; [reflexivity|]. do 4 f_equal.
    apply filter_ext. intros a. apply is_true_eq_lit. }
  split; [exact E|]. split.
  - intros [N B]. rewrite E. destruct df as [|g tl]; [congruence|].
    rewrite wrap64_small; [reflexivity|].
    unfold is_long, long_min. split; [lia|].
    unfold platform_count.
    pose proof (filter_length_le (fun g0 => is_true (f g0)) (g :: tl)). lia.
  - intros ->. split; reflexivity.
Qed.

(** ** Platform profiles *)

Ltac flags g :=
  destruct g as [? ? ? ? ? ? ? ? ? ? ? ? ? ? ? ? l m w ?];
  destruct w as [[|]|], m as [[|]|], l as [[|]|].

(** X2. For every game, [platform_profile] is one of five labels. It is
    "Windows + macOS + Linux", "Windows + macOS", "Windows + Linux" or
    "Windows only" exactly when the Windows flag is true and the macOS and
    Linux flags are the ones the label names; it is "Others" exactly when
    the Windows flag is not true, or the macOS or the Linux flag is NULL. *)
Theorem platform_profile_cases (g : Games.t) :
  (platform_profile g = Some "Windows + macOS + Linux" <->
     Games.platform_windows g = Some true /\ Games.platform_mac g = Some true /\
     Games.platform_linux g = Some true) /\
  (platform_profile g = Some "Windows + macOS" <->
     Games.platform_windows g = Some true /\ Games.platform_mac g = Some true /\
     Games.platform_linux g = Some false) /\
  (platform_profile g = Some "Windows + Linux" <->
     Games.platform_windows g = Some true /\ Games.platform_mac g = Some false /\
     Games.platform_linux g = Some true) /\
  (platform_profile g = Some "Windows only" <->
     Games.platform_windows g = Some true /\ Games.platform_mac g = Some false /\
     Games.platform_linux g = Some false) /\
  (platform_profile g = Some "Others" <->
     Games.platform_windows g <> Some true \/ Games.platform_mac g = None \/
     Games.platform_linux g = None).
Proof.
  flags g; cbn; repeat split; intros; try discriminate; try tauto;
    try (repeat match goal with H : _ /\ _ |- _ => destruct H end; discriminate);
    try (right; left; reflexivity); try (right; right; reflexivity);
    try (left; discriminate);
    try (match goal with H : _ \/ _ |- _ => destruct H as [H|[H|H]] end;
         congruence).
Qed.

Lemma profile_flags_exclusive (g : Games.t) :
  (Nat.b2n (is_true (is_windows_only g)) + Nat.b2n (is_true (is_tri_platform g)) +
   Nat.b2n (is_true (is_windows_mac g)) + Nat.b2n (is_true (is_windows_linux g)))%nat
  = Nat.b2n (is_true (Games.platform_windows g) && known (Games.platform_mac g)
             && known (Games.platform_linux g)).
Proof. flags g; reflexivity. Qed.

Lemma filter_length_sum4 {A} (p1 p2 p3 p4 q : A -> bool) (l : list A) :
  (forall x, (Nat.b2n (p1 x) + Nat.b2n (p2 x) + Nat.b2n (p3 x) + Nat.b2n (p4 x))%nat
             = Nat.b2n (q x)) ->
  (List.length (filter p1 l) + List.length (filter p2 l) +
   List.length (filter p3 l) + List.length (filter p4 l))%nat
  = List.length (filter q l).
Proof.
  intros H. induction l as [|x tl IH]; [reflexivity|].
  cbn [filter]. specialize (H x).
  destruct (p1 x), (p2 x), (p3 x), (p4 x), (q x); cbn [List.length Nat.b2n] in *; lia.
Qed.

Lemma filter_length_sub {A} (p q : A -> bool) (l : list A) :
  (forall x, p x = true -> q x = true) ->
  (List.length (filter p l) <= List.length (filter q l))%nat /\
  (List.length (filter p l) = List.length (filter q l) <->
   Forall (fun x => q x = true -> p x = true) l).
Proof.
  intros H. induction l as [|x tl [IH1 IH2]].
  - split; [apply Nat.le_refl|]. split; [constructor|reflexivity].
  - cbn [filter]. specialize (H x).
    destruct (p x) eqn:P, (q x) eqn:Q; cbn [List.length].
    + split; [lia|]. split.
      * intros E. constructor; [now rewrite P|]. apply IH2. lia.
      * intros F. inversion F; subst. f_equal. now apply IH2.
    + discriminate H. reflexivity.
    + split; [lia|]. split; [lia|].
      intros F. inversion F as [|? ? F1 F2]; subst. rewrite P, Q in F1.
      discriminate F1. reflexivity.
    + split; [exact IH1|]. split.
      * intros E. constructor; [now rewrite Q|]. now apply IH2.
      * intros F. inversion F; subst. now apply IH2.
Qed.

Lemma count_if_in_range (c : Games.t -> option bool) (df : list Games.t) :
  df <> [] -> Z.of_nat (List.length df) <= long_max ->
  count_if c df = Some (Z.of_nat (List.length (filter (fun g => is_true (c g)) df))).
Proof.
  intros N B. rewrite count_if_filter.
  pose proof (filter_length_le (fun g => is_true (c g)) df) as L.
  destruct df as [|g tl]; [congruence|].
  rewrite wrap64_small; [reflexivity|]. unfold is_long, long_min, long_max in *. lia.
Qed.

(** X3. On a table that has a row (and fewer than 2^63), the four counts of
    7.3 are not NULL and not negative, and they add up to at most the number
    of Windows games of 7.2; they add up to it exactly when no Windows game
    has a NULL macOS or Linux flag. *)
Theorem profile_counts_below_windows_count (df : list Games.t) :
  df <> [] -> Z.of_nat (List.length df) <= long_max ->
  exists a b c d w,
    platform_profile_df df = ProfileCounts (Some a) (Some b) (Some c) (Some d) /\
    platform_agg Games.platform_windows df = Some w /\
    0 <= a /\ 0 <= b /\ 0 <= c /\ 0 <= d /\
    a + b + c + d <= w /\
    (a + b + c + d = w <->
     Forall (fun g => Games.platform_windows g = Some true ->
                      Games.platform_mac g <> None /\ Games.platform_linux g <> None)
            df).
Proof.
  intros N B.
  set (n := fun c : Games.t -> option bool =>
              List.length (filter (fun g => is_true (c g)) df)).
  assert (C : forall c, count_if c df = Some (Z.of_nat (n c)))
    by (intros c; now apply count_if_in_range).
  set (q := fun g => is_true (Games.platform_windows g)
                     && known (Games.platform_mac g)
                     && known (Games.platform_linux g)).
  assert (S4 : (n is_windows_only + n is_tri_platform + n is_windows_mac
                + n is_windows_linux)%nat = List.length (filter q df)).
  { unfold n. apply filter_length_sum4. intros g. apply profile_flags_exclusive. }
  assert (Q : forall g, q g = true -> is_true (Games.platform_windows g) = true).
  { intros g. unfold q. intros H. apply andb_prop in H. destruct H as [H _].
    apply andb_prop in H. now destruct H. }
  destruct (filter_length_sub q (fun g => is_true (Games.platform_windows g)) df Q)
    as [L E].
  exists (Z.of_nat (n is_windows_only)), (Z.of_nat (n is_tri_platform)),
         (Z.of_nat (n is_windows_mac)), (Z.of_nat (n is_windows_linux)),
         (Z.of_nat (n Games.platform_windows)).
  split; [unfold platform_profile_df; now rewrite !C|].
  split.
  { unfold platform_agg. rewrite C. do 2 f_equal. unfold n. f_equal.
    apply filter_ext. intros g. apply is_true_eq_lit. }
  repeat (split; [lia|]).
  split; [unfold n in *; lia|].
  assert (E' : Z.of_nat (n is_windows_only) + Z.of_nat (n is_tri_platform) +
               Z.of_nat (n is_windows_mac) + Z.of_nat (n is_windows_linux)
               = Z.of_nat (n Games.platform_windows) <->
               List.length (filter q df)
               = List.length (filter (fun g => is_true (Games.platform_windows g)) df)).
  { unfold n in *. lia. }
  rewrite E', E. clear. split; intros F; induction F as [|g tl H F IH];
    constructor; try exact IH.
  - intros W. unfold q in H. rewrite W in H. cbn in H. specialize (H eq_refl).
    apply andb_prop in H. destruct H as [H1 H2].
    destruct (Games.platform_mac g), (Games.platform_linux g);
      try discriminate; split; discriminate.
  - intros W. unfold q.
    destruct (Games.platform_windows g) as [[|]|]; try discriminate W.
    destruct (H eq_refl) as [H1 H2].
    destruct (Games.platform_mac g), (Games.platform_linux g); try reflexivity;
      congruence.
Qed.

Lemma profile_counts_below_windows_count_witness :
  exists a b c d w,
    platform_profile_df
      [with_platforms (Some true) (Some false) (Some false);
       with_platforms (Some true) None (Some true);
       with_platforms (Some false) (Some true) (Some true)]
    = ProfileCounts (Some a) (Some b) (Some c) (Some d) /\
    platform_agg Games.platform_windows
      [with_platforms (Some true) (Some false) (Some false);
       with_platforms (Some true) None (Some true);
       with_platforms (Some false) (Some true) (Some true)] = Some w /\
    0 <= a /\ 0 <= b /\ 0 <= c /\ 0 <= d /\
    a + b + c + d <= w /\
    (a + b + c + d = w <->
     Forall (fun g => Games.platform_windows g = Some true ->
                      Games.platform_mac g <> None /\ Games.platform_linux g <> None)
       [with_platforms (Some true) (Some false) (Some false);
        with_platforms (Some true) None (Some true);
        with_platforms (Some false) (Some true) (Some true)]).
Proof.
  apply (profile_counts_below_windows_count
           [with_platforms (Some true) (Some false) (Some false);
            with_platforms (Some true) None (Some true);
            with_platforms (Some false) (Some true) (Some true)]).
  - discriminate.
  - unfold long_max. cbn. lia.
Defined.

(** ** Languages *)

Lemma split_comma_pieces (s : string) : split_all re_comma s = pieces s.
Proof.
  unfold split_all, re_comma. induction s as [|c tl IH]; [reflexivity|].
  cbn [split_from pieces]. rewrite match_at_chr, Ascii.eqb_sym.
  destruct (c =? ",")%char.
  - cbn [List.length length]. rewrite succ_sub_self. now rewrite IH.
  - now rewrite IH.
Qed.

Lemma pieces_cons (s : string) : exists t ts, pieces s = t :: ts.
Proof.
  induction s as [|c tl (t & ts & E)]; [now exists "", []|].
  cbn [pieces]. destruct (c =? ",")%char; [now exists "", (pieces tl)|].
  rewrite E. now exists (String c t), ts.
Qed.

Lemma length_pieces (s : string) :
  List.length (pieces s) = S (count_char "," s).
Proof.
  induction s as [|c tl IH]; [reflexivity|]. cbn [pieces count_char].
  destruct (c =? ",")%char; [cbn [List.length]; now rewrite IH|].
  destruct (pieces_cons tl) as (t & ts & E). rewrite E in *. exact IH.
Qed.

Lemma concat_pieces (s : string) : concat "," (pieces s) = s.
Proof.
  induction s as [|c tl IH]; [reflexivity|]. cbn [pieces].
  destruct (pieces_cons tl) as (t & ts & E). rewrite E in *.
  destruct (c =? ",")%char eqn:Ec.
  - apply Ascii.eqb_eq in Ec. subst c.
    change (concat "," ("" :: t :: ts)) with ("" ++ "," ++ concat "," (t :: ts)).
    now rewrite IH.
  - cbn [push]. destruct ts as [|u us].
    + cbn [concat] in *. now rewrite IH.
    + change (concat "," (String c t :: u :: us))
        with (String c (t ++ "," ++ concat "," (u :: us))).
      change (concat "," (t :: u :: us))
        with (t ++ "," ++ concat "," (u :: us)) in IH.
      now rewrite IH.
Qed.

Lemma pieces_comma_free (s : string) :
  Forall (fun t => free_of "," t = true) (pieces s).
Proof.
  induction s as [|c tl IH]; [repeat constructor|]. cbn [pieces].
  destruct (c =? ",")%char eqn:Ec; [now constructor|].
  destruct (pieces tl) as [|t ts]; cbn [push].
  - repeat constructor. cbn [free_of]. now rewrite Ec.
  - inversion IH; subst. constructor; [|assumption]. cbn [free_of]. now rewrite Ec.
Qed.

(** X4. For every game, [num_languages] is -1 when [languages_raw] is NULL
    and otherwise one more than the number of commas of the text: it is
    never 0, and the empty text counts as one language. *)
Theorem num_languages_counts_commas (g : Games.t) :
  num_languages g =
    match Games.languages_raw g with
    | Some s => Some (1 + Z.of_nat (count_char "," s))
    | None => Some (-1)
    end /\
  num_languages g <> Some 0 /\
  num_languages g <> None /\
  num_languages (with_languages "") = Some 1.
Proof.
  assert (E : num_languages g =
              match Games.languages_raw g with
              | Some s => Some (1 + Z.of_nat (count_char "," s))
              | None => Some (-1)
              end).
  { unfold num_languages, languages_array, split, size.
    destruct (Games.languages_raw g) as [s|]; [|reflexivity].
    cbn [option_map]. rewrite split_comma_pieces, length_pieces. f_equal. lia. }
  split; [exact E|]. rewrite E.
  destruct (Games.languages_raw g) as [s|];
    (split; [|split; [discriminate|reflexivity]]); [|discriminate].
  intros H. assert (H' : 1 + Z.of_nat (count_char "," s) = 0) by congruence. lia.
Qed.

(** X5. For every game, the pieces of [languages_array] hold no comma, and
    put together again with commas between them they are [languages_raw]:
    the split loses nothing (NULL stays NULL). *)
Theorem languages_array_round_trip (g : Games.t) :
  option_map (concat ",") (languages_array g) = Games.languages_raw g /\
  match languages_array g with
  | Some l => Forall (fun t => free_of "," t = true) l
  | None => Games.languages_raw g = None
  end.
Proof.
  unfold languages_array, split.
  destruct (Games.languages_raw g) as [s|]; [|split; reflexivity].
  cbn [option_map]. rewrite split_comma_pieces. split.
  - now rewrite concat_pieces.
  - apply pieces_comma_free.
Qed.

(** ** What a clean date text is *)

Lemma find_pad_none_fixed (s : string) : find re_pad s = None -> pad_single_digits s = s.
Proof.
  induction s as [|c tl IH]; [reflexivity|].
  cbn [find pad_single_digits]. rewrite match_at_pad.
  destruct ((c =? "-")%char && single_digit tl) eqn:E.
  - destruct tl as [|d rest]; [now rewrite andb_false_r in E|discriminate].
  - intros H. now rewrite (IH H).
Qed.

Lemma fixed_find_pad_none (s : string) : pad_single_digits s = s -> find re_pad s = None.
Proof.
  induction s as [|c tl IH]; [reflexivity|].
  cbn [find pad_single_digits]. rewrite match_at_pad.
  destruct ((c =? "-")%char && single_digit tl) eqn:E.
  - intros H. exfalso. injection H as _ H.
    apply andb_prop in E. destruct E as [_ E].
    destruct tl as [|d rest]; [discriminate|].
    cbn [single_digit] in E. andb_hyp E Hd Hr.
    cbn [pad_single_digits] in H. rewrite (digit_not_dash d Hd) in H.
    cbn [andb] in H. injection H as <- H.
    rewrite <- H in Hr. discriminate.
  - intros H. injection H as H. exact (IH H).
Qed.

Lemma free_normalize (s : string) :
  free_of "," (normalize s) = true /\ free_of "/" (normalize s) = true /\
  find re_pad (normalize s) = None.
Proof.
  unfold normalize. split; [|split].
  - apply free_pad; [reflexivity..|]. apply free_comma_slashes, free_remove_commas.
  - apply free_pad; [reflexivity..|]. apply free_slashes.
  - apply fixed_find_pad_none, pad_idempotent.
Qed.

(** X6. A date text is left as it is by the cleaning exactly when it has no
    comma, no [/] and no place where the padding pattern [-(\d)(?!\d)]
    matches; and what the cleaning gives is always such a text. *)
Theorem clean_date_fixed_points :
  (forall s, clean_date (Some s) = Some s <->
             free_of "," s = true /\ free_of "/" s = true /\ find re_pad s = None) /\
  (forall x, match clean_date x with
             | Some c => free_of "," c = true /\ free_of "/" c = true /\
                         find re_pad c = None
             | None => x = None
             end).
Proof.
  split.
  - intros s. rewrite clean_date_normalize. cbn [option_map]. split.
    + intros H. injection H as H. rewrite <- H. apply free_normalize.
    + intros (Hc & Hs & Hp). f_equal. unfold normalize.
      now rewrite (remove_commas_free s Hc), (slashes_free s Hs),
                  (find_pad_none_fixed s Hp).
  - intros x. rewrite clean_date_normalize. destruct x as [s|]; [|reflexivity].
    cbn [option_map]. apply free_normalize.
Qed.

(** ** The columns drawn from the parsed date *)

Lemma new_parse_valid (fs : list field) (s : string) (d : date) :
  new_parse fs s = Some d ->
  valid_date (date_year d) (date_month d) (date_day d) = true.
Proof.
  unfold new_parse.
  destruct (parse_fields fs (None, None, None) s) as [[[[[y|] [m|]] [dd|]] rest]|];
    try discriminate.
  destruct rest; [|discriminate].
  destruct (valid_date y m dd) eqn:V; [|discriminate].
  intros H. injection H as <-. exact V.
Qed.

Lemma parse_date_valid (s fmt : string) (d : date) :
  parse_date s fmt = Returns (Some d) ->
  valid_date (date_year d) (date_month d) (date_day d) = true.
Proof.
  unfold parse_date. destruct (compile (runs fmt)) as [fs|]; [|discriminate].
  destruct (supported fs && all_ascii s)%bool; [|discriminate].
  destruct (new_parse fs s) as [d'|] eqn:P.
  - destruct (in_timestamp_range d'); [|discriminate].
    intros H. injection H as <-. exact (new_parse_valid fs s d' P).
  - destruct (legacy_parse fs s); discriminate.
Qed.

Lemma first_parse_valid (fmts : list string) (s : string) (d : date) :
  first_parse fmts s = Returns (Some d) ->
  valid_date (date_year d) (date_month d) (date_day d) = true.
Proof.
  induction fmts as [|f tl IH]; [discriminate|]. cbn [first_parse].
  destruct (parse_date s f) as [[d'|]| |] eqn:P; [|exact IH|discriminate..].
  intros H. injection H as <-. exact (parse_date_valid s f d' P).
Qed.

Lemma release_date_parsed_valid (g : Games.t) (d : date) :
  release_date_parsed g = Returns (Some d) ->
  valid_date (date_year d) (date_month d) (date_day d) = true.
Proof.
  rewrite release_date_parsed_first.
  destruct (release_date_clean g) as [c|]; [apply first_parse_valid|discriminate].
Qed.

Lemma days_in_month_le (y m : Z) : days_in_month y m <= 31.
Proof.
  unfold days_in_month. destruct (m =? 2); [destruct (leap y); lia|].
  destruct (_ || _)%bool; lia.
Qed.

(** X7. For every game, the year, the month and the COVID period come from
    the one parsed date. When every format gives NULL, year and month are
    NULL and the period is "unknown"; when a format reads the release date,
    the date is a day of the calendar (month 1 to 12, day within the month),
    year and month are its year and month, and the period is the label of
    its year, never "unknown"; and when the parsing raises, so do the year,
    the month and the period. *)
Theorem release_columns_follow_date (g : Games.t) :
  match release_date_parsed g with
  | Returns (Some d) =>
      release_year g = Returns (Some (date_year d)) /\
      release_month g = Returns (Some (date_month d)) /\
      1 <= date_month d <= 12 /\
      1 <= date_day d <= days_in_month (date_year d) (date_month d) /\
      date_day d <= 31 /\
      covid_period g = Returns (covid_period_of (Some (date_year d))) /\
      covid_period g <> Returns (Some "unknown")
  | Returns None =>
      release_year g = Returns None /\ release_month g = Returns None /\
      covid_period g = Returns (Some "unknown")
  | SparkUpgradeException =>
      release_year g = SparkUpgradeException /\
      release_month g = SparkUpgradeException /\
      covid_period g = SparkUpgradeException
  | NotModelled =>
      release_year g = NotModelled /\ release_month g = NotModelled /\
      covid_period g = NotModelled
  end.
Proof.
  unfold covid_period, release_year, release_month.
  destruct (release_date_parsed g) as [[d|]| |] eqn:P; [|repeat split..].
  apply release_date_parsed_valid in P. unfold valid_date in P.
  repeat match type of P with (_ && _)%bool = true =>
    let H := fresh "V" in apply andb_prop in P; destruct P as [P H] end.
  apply Z.leb_le in V, V0, V1, V2.
  pose proof (days_in_month_le (date_year d) (date_month d)).
  cbn [outcome_map year month option_map]. repeat split; try lia.
  rewrite covid_period_of_year.
  destruct (date_year d <? 2019); [discriminate|].
  destruct (date_year d <=? 2021); discriminate.
Qed.

(** ** The age and what surrounds it *)

Lemma digit_free_prefix (pre s : string) :
  has_digit pre = false ->
  has_digit (pre ++ s) = has_digit s /\
  first_digit_run (pre ++ s) = first_digit_run s.
Proof.
  induction pre as [|c tl IH]; [split; reflexivity|].
  cbn [has_digit append first_digit_run]. intros H.
  apply orb_false_iff in H. destruct H as [Hc Ht]. rewrite Hc. exact (IH Ht).
Qed.

Lemma take_digits_stop (ds : string) (c : ascii) (post : string) :
  all_digits ds = true -> is_digit c = false ->
  take_digits (ds ++ String c post) = ds /\ take_digits ds = ds.
Proof.
  unfold take_digits. intros H Hc. induction ds as [|d tl IH].
  - cbn [append take_while]. now rewrite Hc.
  - cbn [all_digits] in H. andb_hyp H Hd Ht. cbn [append take_while].
    rewrite Hd. destruct (IH Ht) as [-> ->]. split; reflexivity.
Qed.

Lemma age_of_text_range (s : string) (v : Z) :
  age_of_text s = Some v -> 0 <= v <= int_max.
Proof.
  unfold age_of_text. destruct (has_digit s) eqn:H; [|discriminate].
  destruct (first_digit_run_digits s H) as (c & tl & E & Hc & Ht). rewrite E.
  destruct (decimal 0 (String c tl) <=? int_max) eqn:B; [|discriminate].
  intros V. assert (V' : decimal 0 (String c tl) = v) by congruence.
  rewrite <- V'. apply Z.leb_le in B. split; [|exact B].
  apply (decimal_nonneg (String c tl)); [|lia]. cbn [all_digits]. now rewrite Hc, Ht.
Qed.

(** X8. The age number is read from the first run of digits alone. It is
    never negative (a minus sign in front is not read); a text without
    digit put in front changes nothing; and whatever follows the run, once a
    character that is not a digit has ended it, changes nothing. *)
Theorem required_age_reads_first_digits_only :
  (forall g, match required_age g with
             | Some v => 0 <= v <= int_max
             | None => True
             end) /\
  (forall pre s, has_digit pre = false ->
                 required_age (with_age (pre ++ s)) = required_age (with_age s)) /\
  (forall s, required_age (with_age (String "-" s)) = required_age (with_age s)) /\
  (forall ds c post, all_digits ds = true -> ds <> "" -> is_digit c = false ->
                     required_age (with_age (ds ++ String c post))
                     = required_age (with_age ds)).
Proof.
  assert (P : forall pre s, has_digit pre = false ->
                required_age (with_age (pre ++ s)) = required_age (with_age s)).
  { intros pre s H. rewrite !required_age_of_text.
    cbn [with_age Games.required_age_raw]. unfold age_of_text.
    destruct (digit_free_prefix pre s H) as [-> ->]. reflexivity. }
  split; [|split; [exact P|split]].
  - intros g. destruct (required_age g) as [v|] eqn:E; [|exact I].
    rewrite required_age_of_text in E.
    destruct (Games.required_age_raw g) as [s|]; [|discriminate].
    exact (age_of_text_range s v E).
  - intros s. exact (P (String "-" "") s eq_refl).
  - intros ds c post A N Hc. rewrite !required_age_of_text.
    cbn [with_age Games.required_age_raw]. unfold age_of_text.
    destruct ds as [|d tl]; [congruence|].
    pose proof A as A'. cbn [all_digits] in A'. andb_hyp A' Hd Ht.
    destruct (take_digits_stop (String d tl) c post A Hc) as [T1 T2].
    cbn [append has_digit first_digit_run]. rewrite Hd. cbn [orb].
    change (String d (tl ++ String c post)) with (String d tl ++ String c post).
    fold take_digits. now rewrite T1, T2.
Qed.

(** ** A record without [data] *)

(** X9. A record whose [data] is NULL goes through the whole notebook: it
    gives a row that keeps [id] and has NULL in every other column of the
    flat table; none of its numbers, date, year or ratio is read, its
    period is "unknown", its platform profile "Others", its number of
    languages -1, and it has no genre row. *)
Theorem record_without_data_is_all_null (r : Raw.row) :
  Raw.data_ r = None ->
  flatten r = Games.Make (Raw.id r) None None None None None None None None None
                         None None None None None None None None None None /\
  build_games_df [r] = [flatten r] /\
  positive (flatten r) = None /\ negative (flatten r) = None /\
  total_reviews (flatten r) = None /\ positive_ratio (flatten r) = None /\
  required_age (flatten r) = None /\ ccu (flatten r) = None /\
  release_date_clean (flatten r) = None /\
  release_date_parsed (flatten r) = Returns None /\
  release_year (flatten r) = Returns None /\
  covid_period (flatten r) = Returns (Some "unknown") /\
  platform_profile (flatten r) = Some "Others" /\
  num_languages (flatten r) = Some (-1) /\
  genres_exploded_df (build_games_df [r]) = [].
Proof.
  intros H. destruct r as [i d]. cbn [Raw.data_] in H. subst d.
  repeat split.
Qed.

Lemma record_without_data_is_all_null_witness :
  flatten (Raw.Row (Some "730") None)
  = Games.Make (Some "730") None None None None None None None None None
               None None None None None None None None None None /\
  build_games_df [Raw.Row (Some "730") None] = [flatten (Raw.Row (Some "730") None)] /\
  positive (flatten (Raw.Row (Some "730") None)) = None /\
  negative (flatten (Raw.Row (Some "730") None)) = None /\
  total_reviews (flatten (Raw.Row (Some "730") None)) = None /\
  positive_ratio (flatten (Raw.Row (Some "730") None)) = None /\
  required_age (flatten (Raw.Row (Some "730") None)) = None /\
  ccu (flatten (Raw.Row (Some "730") None)) = None /\
  release_date_clean (flatten (Raw.Row (Some "730") None)) = None /\
  release_date_parsed (flatten (Raw.Row (Some "730") None)) = Returns None /\
  release_year (flatten (Raw.Row (Some "730") None)) = Returns None /\
  covid_period (flatten (Raw.Row (Some "730") None)) = Returns (Some "unknown") /\
  platform_profile (flatten (Raw.Row (Some "730") None)) = Some "Others" /\
  num_languages (flatten (Raw.Row (Some "730") None)) = Some (-1) /\
  genres_exploded_df (build_games_df [Raw.Row (Some "730") None]) = [].
Proof.
  apply (record_without_data_is_all_null (Raw.Row (Some "730") None)). reflexivity.
Defined.

(** ** The exploded table *)

Lemma split_on_commas_cons (b : bool) (s : string) :
  exists t ts, split_on_commas b s = t :: ts.
Proof.
  revert b. induction s as [|c tl IH]; intros b; [now exists "", []|].
  cbn [split_on_commas]. destruct (c =? ",")%char; [now eexists _, _|].
  destruct (b && is_space c); [apply IH|].
  destruct (IH false) as (t & ts & ->). now exists (String c t), ts.
Qed.

Lemma length_split_on_commas (b : bool) (s : string) :
  List.length (split_on_commas b s) = S (count_char "," s).
Proof.
  revert b. induction s as [|c tl IH]; intros b; [reflexivity|].
  cbn [split_on_commas count_char]. destruct (c =? ",")%char.
  - cbn [List.length]. now rewrite IH.
  - destruct (b && is_space c); [apply IH|].
    destruct (split_on_commas_cons false tl) as (t & ts & E).
    rewrite <- (IH false), E. reflexivity.
Qed.

Lemma split_on_commas_comma_free (b : bool) (s : string) :
  Forall (fun t => free_of "," t = true) (split_on_commas b s).
Proof.
  revert b. induction s as [|c tl IH]; intros b; [repeat constructor|].
  cbn [split_on_commas]. destruct (c =? ",")%char eqn:Ec.
  - constructor; [reflexivity|apply IH].
  - destruct (b && is_space c); [apply IH|].
    specialize (IH false). destruct (split_on_commas false tl) as [|t ts]; cbn [push].
    + repeat constructor. cbn [free_of]. now rewrite Ec.
    + inversion IH; subst. constructor; [|assumption]. cbn [free_of]. now rewrite Ec.
Qed.

Lemma genres_of_raw (g : Games.t) :
  genres g =
  match Games.genre_raw g with
  | Some s => map Some (filter nonempty (split_on_commas false s))
  | None => []
  end.
Proof.
  rewrite genres_of_array, genre_array_split. now destruct (Games.genre_raw g).
Qed.

Lemma exploded_rows (g : Games.t) : exploded g = map (fun x => (g, x)) (genres g).
Proof.
  unfold genres, exploded.
  induction (explode (genre_array g)) as [|x l IH]; [reflexivity|].
  cbn [map filter snd]. destruct (is_true _); [|exact IH].
  cbn [map snd]. f_equal. exact IH.
Qed.

(** X10. A row is in [genres_exploded_df] exactly when its game is in
    [games_df], the game has a [genre_raw], and the genre of the row is one
    of the pieces of that text between commas, not empty; such a genre holds
    no comma. So the table never has a row for a game without genres and
    never an empty or NULL genre. *)
Theorem genres_exploded_df_rows (df : list Games.t) (row : Games.t * option string) :
  In row (genres_exploded_df df) <->
  In (fst row) df /\
  exists s t, Games.genre_raw (fst row) = Some s /\ snd row = Some t /\
              t <> "" /\ free_of "," t = true /\ In t (split_on_commas false s).
Proof.
  unfold genres_exploded_df. rewrite in_flat_map. destruct row as [g x]. cbn [fst snd].
  split.
  - intros (g' & Hg & Hr). rewrite exploded_rows, genres_of_raw in Hr.
    apply in_map_iff in Hr. destruct Hr as (y & E & Hy). injection E as <- <-.
    split; [exact Hg|].
    destruct (Games.genre_raw g') as [s|]; [|contradiction].
    apply in_map_iff in Hy. destruct Hy as (t & <- & Ht).
    apply filter_In in Ht. destruct Ht as [Ht Hn].
    exists s, t. repeat split; try assumption.
    + intros ->. discriminate.
    + pose proof (split_on_commas_comma_free false s) as F.
      rewrite Forall_forall in F. now apply F.
  - intros (Hg & s & t & Hs & -> & Hn & _ & Ht). exists g. split; [exact Hg|].
    rewrite exploded_rows, genres_of_raw, Hs. apply in_map, in_map.
    apply filter_In. split; [exact Ht|].
    unfold nonempty. destruct (t =? "")%string eqn:E; [|reflexivity].
    apply String.eqb_eq in E. contradiction.
Qed.

(** X11. A game has at most one row in [genres_exploded_df] more than its
    [genre_raw] has commas, none when [genre_raw] is NULL; and the table has
    as many rows as its games have genres, all added up. *)
Theorem genres_exploded_df_size (df : list Games.t) :
  List.length (genres_exploded_df df)
    = list_sum (map (fun g => List.length (genres g)) df) /\
  Forall (fun g => match Games.genre_raw g with
                   | Some s => (List.length (exploded g) <= 1 + count_char "," s)%nat
                   | None => exploded g = []
                   end) df.
Proof.
  split.
  - unfold genres_exploded_df. induction df as [|g tl IH]; [reflexivity|].
    cbn [flat_map map]. rewrite length_app, IH, exploded_rows, length_map.
    reflexivity.
  - apply Forall_forall. intros g _. rewrite exploded_rows, genres_of_raw.
    destruct (Games.genre_raw g) as [s|]; [|reflexivity].
    rewrite !length_map.
    pose proof (length_split_on_commas false s).
    pose proof (filter_length_le nonempty (split_on_commas false s)). lia.
Qed.

(** ** Groups *)

Lemma key_eqb_eq (a b : option string) : key_eqb a b = true <-> a = b.
Proof. unfold key_eqb. destruct (key_dec a b); split; congruence. Qed.

Lemma list_sum_map_add {A} (f h : A -> nat) (l : list A) :
  list_sum (map (fun x => (f x + h x)%nat) l)
  = (list_sum (map f l) + list_sum (map h l))%nat.
Proof. induction l as [|x tl IH]; [reflexivity|]. simpl. lia. Qed.

Lemma list_sum_map_zero {A} (l : list A) : list_sum (map (fun _ => O) l) = O.
Proof. induction l as [|x tl IH]; [reflexivity|exact IH]. Qed.

Lemma sum_indicator (a : option string) (ks : list (option string)) :
  NoDup ks ->
  list_sum (map (fun k => Nat.b2n (key_eqb a k)) ks)
  = if in_dec key_dec a ks then 1%nat else 0%nat.
Proof.
  induction 1 as [|k ks Hk N IH]; [reflexivity|].
  cbn [map]. change (list_sum (?x :: ?l)) with (x + list_sum l)%nat.
  rewrite IH. unfold key_eqb.
  destruct (key_dec a k) as [->|D].
  - destruct (in_dec key_dec k ks) as [I|_]; [contradiction|].
    destruct (in_dec key_dec k (k :: ks)) as [_|I]; [reflexivity|].
    exfalso. apply I. now left.
  - destruct (in_dec key_dec a ks) as [I|I];
      destruct (in_dec key_dec a (k :: ks)) as [J|J]; try reflexivity.
    + exfalso. apply J. now right.
    + exfalso. destruct J as [J|J]; [congruence|contradiction].
Qed.

(** The groups of a table share its rows out: every row is in one group. *)
Lemma groups_partition {A} (key : A -> option string) (ks : list (option string))
    (l : list A) :
  NoDup ks -> (forall x, In x l -> In (key x) ks) ->
  list_sum (map (fun k => List.length (group key k l)) ks) = List.length l.
Proof.
  intros N. induction l as [|x tl IH]; intros H.
  - apply list_sum_map_zero.
  - rewrite (map_ext _ (fun k => (Nat.b2n (key_eqb (key x) k)
                                   + List.length (group key k tl))%nat)).
    + rewrite list_sum_map_add, (sum_indicator (key x) ks N), IH.
      * destruct (in_dec key_dec (key x) ks) as [_|I]; [reflexivity|].
        exfalso. apply I, H. now left.
      * intros y Hy. apply H. now right.
    + intros k. unfold group. cbn [filter].
      destruct (key_eqb (key x) k); reflexivity.
Qed.

Lemma keys_spec {A} (key : A -> option string) (l : list A) (k : option string) :
  In k (keys key l) <-> exists x, In x l /\ key x = k.
Proof.
  unfold keys. rewrite nodup_In, in_map_iff. split; intros (x & H1 & H2);
    exists x; now split.
Qed.

Lemma group_spec {A} (key : A -> option string) (k : option string) (l : list A)
    (x : A) :
  In x (group key k l) <-> In x l /\ key x = k.
Proof. unfold group. now rewrite filter_In, key_eqb_eq. Qed.

Lemma nodup_length_le (l : list Z) :
  (List.length (nodup Z.eq_dec l) <= List.length l)%nat.
Proof.
  induction l as [|x tl IH]; [apply Nat.le_refl|].
  cbn [nodup]. destruct (in_dec Z.eq_dec x tl); cbn [List.length]; lia.
Qed.

Lemma somes_length_le {A} (l : list (option A)) :
  (List.length (somes l) <= List.length l)%nat.
Proof.
  induction l as [|[a|] tl IH]; cbn [somes List.length]; lia.
Qed.

Lemma somes_nil {A} (l : list (option A)) :
  somes l = [] <-> Forall (fun x => x = None) l.
Proof.
  induction l as [|[a|] tl IH]; cbn [somes].
  - split; [constructor|reflexivity].
  - split; [discriminate|]. intros F. inversion F; discriminate.
  - rewrite IH. split; [now constructor|]. intros F. now inversion F.
Qed.

Lemma nodup_nil (l : list Z) : nodup Z.eq_dec l = [] <-> l = [].
Proof.
  split; [|intros ->; reflexivity].
  destruct l as [|x tl]; [reflexivity|]. intros H. exfalso.
  assert (I : In x (nodup Z.eq_dec (x :: tl))) by (apply nodup_In; now left).
  now rewrite H in I.
Qed.

(** X12. In the statistics per genre of the exploded table, every genre is
    a text that is not empty and comes once; its number of games (6.2,
    distinct [app_id]) is at most its number of rows (8.3, [count("*")]),
    which is at least 1, and is 0 exactly when every game of the genre has a
    NULL [app_id]; and the rows of the genres add up to the rows of the
    table. *)
Theorem genre_counts_and_rows (df : list Games.t) :
  (forall k n, In (k, n) (genre_counts_df (genres_exploded_df df)) ->
     (exists t, k = Some t /\ t <> "") /\
     n = nb_games k (genres_exploded_df df) /\
     (n <= nb_rows k (genres_exploded_df df))%nat /\
     (1 <= nb_rows k (genres_exploded_df df))%nat /\
     (n = 0%nat <->
      forall row, In row (group exploded_genre k (genres_exploded_df df)) ->
                  Games.app_id (fst row) = None)) /\
  NoDup (map fst (genre_counts_df (genres_exploded_df df))) /\
  list_sum (map (fun k => nb_rows k (genres_exploded_df df))
                (keys exploded_genre (genres_exploded_df df)))
  = List.length (genres_exploded_df df).
Proof.
  set (rows := genres_exploded_df df). split; [|split].
  - intros k n H. unfold genre_counts_df in H. apply in_map_iff in H.
    destruct H as (k' & E & Hk). injection E as -> <-.
    apply keys_spec in Hk. destruct Hk as (row & Hr & Ek).
    assert (G : In row (group exploded_genre k rows)) by now apply group_spec.
    split; [|split; [reflexivity|split; [|split]]].
    + apply genres_exploded_df_rows in Hr.
      destruct Hr as (_ & s & t & _ & Et & Hn & _). exists t.
      unfold exploded_genre in Ek. split; congruence.
    + unfold nb_games, nb_rows, count_distinct.
      etransitivity; [apply nodup_length_le|].
      etransitivity; [apply somes_length_le|]. now rewrite length_map.
    + unfold nb_rows. destruct (group exploded_genre k rows); [contradiction|].
      cbn [List.length]. lia.
    + unfold nb_games, count_distinct. rewrite length_zero_iff_nil, nodup_nil, somes_nil.
      rewrite Forall_forall. split.
      * intros F r Hin. apply F.
        now apply (in_map (fun row0 : Games.t * option string =>
                             Games.app_id (fst row0))).
      * intros F x Hx. apply in_map_iff in Hx. destruct Hx as (r & <- & Hin).
        now apply F.
  - unfold genre_counts_df. rewrite map_map. cbn [fst]. rewrite map_id.
    apply NoDup_nodup.
  - unfold nb_rows. apply groups_partition; [apply NoDup_nodup|].
    intros x Hx. apply keys_spec. now exists x.
Qed.

(** ** Review sums per genre *)

Lemma sum_long_cons_some (a : Z) (l : list (option Z)) :
  sum_long (Some a :: l) =
  Some (match sum_long l with Some b => wrap64 (a + b) | None => a end).
Proof. cbn [sum_long]. now destruct (sum_long l). Qed.

Lemma sum_long_none (l : list (option Z)) :
  sum_long l = None <-> Forall (fun x => x = None) l.
Proof.
  induction l as [|[a|] tl IH].
  - split; [constructor|reflexivity].
  - rewrite sum_long_cons_some. split; [discriminate|].
    intros F. inversion F; discriminate.
  - cbn [sum_long]. rewrite IH. split; [now constructor|]. intros F. now inversion F.
Qed.

Lemma total_reviews_add (g : Games.t) :
  total_reviews g = add_long (positive g) (negative g).
Proof. reflexivity. Qed.

Lemma sums_of_counters (l : list Games.t) :
  Forall (fun g => positive g <> None /\ negative g <> None) l ->
  (sum_long (map positive l) = None /\ sum_long (map negative l) = None /\
   sum_long (map total_reviews l) = None) \/
  exists P N, sum_long (map positive l) = Some (wrap64 P) /\
              sum_long (map negative l) = Some (wrap64 N) /\
              sum_long (map total_reviews l) = Some (wrap64 (P + N)).
Proof.
  induction 1 as [|g tl [Hp Hn] F IH]; [left; repeat split|]. right.
  cbn [map]. rewrite total_reviews_add.
  destruct (positive g) as [p|] eqn:Ep; [|congruence].
  destruct (negative g) as [n|] eqn:En; [|congruence].
  apply cast_long_range, wrap64_small in Ep, En.
  cbn [add_long]. rewrite !sum_long_cons_some.
  destruct IH as [(-> & -> & ->)|(P & N & -> & -> & ->)].
  - exists p, n. now rewrite Ep, En.
  - exists (p + P), (n + N). rewrite !wrap64_add_r. repeat split.
    rewrite wrap64_add_l. f_equal. f_equal. lia.
Qed.

Lemma sum_total_reviews_add (l : list Games.t) :
  Forall (fun g => positive g <> None /\ negative g <> None) l ->
  sum_long (map total_reviews l)
  = add_long (sum_long (map positive l)) (sum_long (map negative l)).
Proof.
  intros F. destruct (sums_of_counters l F) as [(-> & -> & ->)|(P & N & -> & -> & ->)];
    [reflexivity|].
  cbn [add_long]. now rewrite wrap64_add_r, wrap64_add_l.
Qed.

(** X13. For a genre whose games all have both review counters, the sum of
    [total_reviews] is the sum of [positive] plus the sum of [negative], as
    [bigint]s (a game with one counter NULL would count in one sum and not
    in the total). *)
Theorem genre_sum_total_is_positive_plus_negative
    (k : option string) (rows : list (Games.t * option string)) :
  (forall row, In row (group exploded_genre k rows) ->
               positive (fst row) <> None /\ negative (fst row) <> None) ->
  sum_total_reviews (genre_reviews_of k rows)
  = add_long (sum_positive (genre_reviews_of k rows))
             (sum_negative (genre_reviews_of k rows)).
Proof.
  intros H. unfold genre_reviews_of. cbn [sum_total_reviews sum_positive sum_negative].
  rewrite <- !(map_map fst). apply sum_total_reviews_add.
  apply Forall_forall. intros g Hg. apply in_map_iff in Hg.
  destruct Hg as (row & <- & Hr). now apply H.
Qed.

Lemma genre_sum_total_is_positive_plus_negative_witness :
  sum_total_reviews
    (genre_reviews_of (Some "Action")
       (genres_exploded_df [game 1 "Action" (Some "10") (Some "2");
                            game 2 "Action, RPG" (Some "5") (Some "5");
                            game 3 "RPG" (Some "7") None]))
  = add_long (Some 15) (Some 7).
Proof.
  apply (genre_sum_total_is_positive_plus_negative (Some "Action")
           (genres_exploded_df [game 1 "Action" (Some "10") (Some "2");
                                game 2 "Action, RPG" (Some "5") (Some "5");
                                game 3 "RPG" (Some "7") None])).
  intros row H. vm_compute in H.
  destruct H as [<-|[<-|[]]]; split; discriminate.
Defined.

Lemma sum_total_needs_positive (l : list Games.t) :
  sum_long (map positive l) = None -> sum_long (map total_reviews l) = None.
Proof.
  rewrite !sum_long_none, !Forall_map. apply Forall_impl. intros g H.
  now rewrite total_reviews_add, H.
Qed.

(** X14. For every genre, [positive_rate] is NULL exactly when the sum of
    [total_reviews] is NULL, zero or negative; when that sum is positive,
    the rate is the sum of [positive] divided by it. *)
Theorem genre_positive_rate_guard
    (k : option string) (rows : list (Games.t * option string)) :
  (positive_rate (genre_reviews_of k rows) = None <->
     sum_total_reviews (genre_reviews_of k rows) = None \/
     exists t, sum_total_reviews (genre_reviews_of k rows) = Some t /\ t <= 0) /\
  (forall t, sum_total_reviews (genre_reviews_of k rows) = Some t -> 0 < t ->
     exists p, sum_positive (genre_reviews_of k rows) = Some p /\
               positive_rate (genre_reviews_of k rows)
               = Some (PrimFloat.div (long_to_double p) (long_to_double t))).
Proof.
  unfold genre_reviews_of.
  cbn [sum_total_reviews sum_positive positive_rate].
  rewrite <- !(map_map fst).
  set (l := map fst (group exploded_genre k rows)).
  pose proof (sum_total_needs_positive l) as N.
  destruct (sum_long (map total_reviews l)) as [t|].
  - destruct (sum_long (map positive l)) as [p|]; [|discriminate (N eq_refl)].
    unfold gt, cmp, div_longs, div_long, cast_long_double.
    cbn [option_map when_]. rewrite Z.gtb_ltb.
    destruct (0 <? t) eqn:E; [apply Z.ltb_lt in E | apply Z.ltb_ge in E].
    + replace (t =? 0) with false by (symmetry; apply Z.eqb_neq; lia). split.
      * split; [discriminate|].
        intros [H|(t' & H & R)]; [discriminate|]. injection H as <-. lia.
      * intros t' H _. injection H as <-. now exists p.
    + split.
      * split; [|reflexivity]. intros _. right. now exists t.
      * intros t' H R. injection H as <-. lia.
  - split; [split; auto|]. intros t H. discriminate.
Qed.

(** ** Games per COVID period *)

Lemma covid_period_label (y : option Z) :
  In (covid_period_of y)
     [Some "unknown"; Some "pre_covid"; Some "covid"; Some "post_covid"].
Proof.
  destruct y as [y|]; [|now left].
  rewrite covid_period_of_year.
  destruct (y <? 2019); [right; now left|].
  destruct (y <=? 2021); [do 2 right; now left|do 3 right; now left].
Qed.

Lemma covid_labels_nodup :
  NoDup [Some "unknown"; Some "pre_covid"; Some "covid"; Some "post_covid"].
Proof.
  repeat constructor; cbn [In]; intros H;
    repeat (destruct H as [H|H]; [discriminate|]); exact H.
Qed.

Lemma covid_period_returns (g : Games.t) (k : option string) :
  covid_period g = Returns k ->
  In k [Some "unknown"; Some "pre_covid"; Some "covid"; Some "post_covid"] /\
  key_eqb k (Some "unknown")
  = match release_date_parsed g with Returns None => true | _ => false end.
Proof.
  unfold covid_period, release_year.
  destruct (release_date_parsed g) as [[d|]| |]; cbn [outcome_map];
    try discriminate; intros H; injection H as <-.
  - split; [apply covid_period_label|].
    cbn [year option_map]. rewrite covid_period_of_year.
    destruct (date_year d <? 2019); [reflexivity|].
    destruct (date_year d <=? 2021); reflexivity.
  - split; [apply covid_period_label|reflexivity].
Qed.

Lemma covid_period_fails (g : Games.t) :
  (covid_period g = SparkUpgradeException ->
   release_date_parsed g = SparkUpgradeException) /\
  (covid_period g = NotModelled -> release_date_parsed g = NotModelled).
Proof.
  unfold covid_period, release_year.
  destruct (release_date_parsed g) as [[d|]| |]; cbn [outcome_map];
    split; intros H; try discriminate; reflexivity.
Qed.

Lemma collect_returns {A} (l : list (outcome A)) (r : list A) :
  collect l = Returns r <-> l = map Returns r.
Proof.
  revert r. induction l as [|o tl IH]; intros r; cbn [collect].
  - split; intros H.
    + injection H as <-. reflexivity.
    + destruct r; [reflexivity|discriminate].
  - destruct o as [a| |].
    + destruct (collect tl) as [r'| |] eqn:E.
      * split; intros H.
        -- injection H as <-. cbn [map]. f_equal. now apply IH.
        -- destruct r as [|b r'']; [discriminate|]. cbn [map] in H.
           injection H as <- H. apply IH in H. congruence.
      * split; [discriminate|]. intros H. destruct r as [|b r'']; [discriminate|].
        cbn [map] in H. injection H as _ H. apply IH in H. discriminate.
      * split; [discriminate|]. intros H. destruct r as [|b r'']; [discriminate|].
        cbn [map] in H. injection H as _ H. apply IH in H. discriminate.
    + split; [destruct (collect tl); discriminate|].
      intros H. destruct r; discriminate.
    + split; [destruct (collect tl); discriminate|].
      intros H. destruct r; discriminate.
Qed.

Lemma collect_raises {A} (l : list (outcome A)) :
  collect l = SparkUpgradeException -> In SparkUpgradeException l.
Proof.
  induction l as [|o tl IH]; cbn [collect]; [discriminate|].
  destruct o as [a| |]; [|now left|destruct (collect tl); discriminate].
  destruct (collect tl); try discriminate. intros _. right. now apply IH.
Qed.

Lemma collect_not_modelled {A} (l : list (outcome A)) :
  collect l = NotModelled -> In NotModelled l.
Proof.
  induction l as [|o tl IH]; cbn [collect]; [discriminate|].
  destruct o as [a| |]; [| |now left].
  - destruct (collect tl); try discriminate. intros _. right. now apply IH.
  - destruct (collect tl); try discriminate. intros _. right. now apply IH.
Qed.

Lemma covid_column_rows (df : list Games.t) (col : list (option string)) :
  map covid_period df = map Returns col ->
  List.length col = List.length df /\
  (forall k, In k col ->
     In k [Some "unknown"; Some "pre_covid"; Some "covid"; Some "post_covid"]) /\
  List.length (filter (fun k => key_eqb k (Some "unknown")) col)
  = List.length (filter (fun g => match release_date_parsed g with
                                  | Returns None => true
                                  | _ => false
                                  end) df).
Proof.
  revert col. induction df as [|g tl IH]; intros col H.
  - destruct col; [|discriminate]. repeat split. intros k [].
  - destruct col as [|k col]; [discriminate|]. cbn [map] in H.
    injection H as Hg H. destruct (IH col H) as (L & I & U).
    destruct (covid_period_returns g k Hg) as [Ik Uk].
    split; [cbn [List.length]; now rewrite L|]. split.
    + intros k' [<-|Hk]; [exact Ik|now apply I].
    + cbn [filter]. rewrite Uk.
      destruct (release_date_parsed g) as [[d|]| |]; cbn [List.length];
        now rewrite U.
Qed.

(** X15. When [covid_period] is computed on every row, the games of the
    four COVID periods add up to the games of the table: no game is left out
    or counted twice. [covid_counts] has rows for these four labels only,
    each with at least one game; and the games of "unknown" are those whose
    release date every format gives NULL for. When the parsing of a release
    date raises, [covid_counts] raises, and the table has such a row. *)
Theorem covid_counts_cover_the_table (df : list Games.t) :
  match covid_period_column df with
  | Returns col =>
      map covid_period df = map Returns col /\
      covid_counts df = Returns (count_by_period col) /\
      (covid_count (Some "unknown") col + covid_count (Some "pre_covid") col +
       covid_count (Some "covid") col + covid_count (Some "post_covid") col)%nat
      = List.length df /\
      (forall k n, In (k, n) (count_by_period col) ->
         In k [Some "unknown"; Some "pre_covid"; Some "covid"; Some "post_covid"] /\
         n = covid_count k col /\ (1 <= n)%nat) /\
      NoDup (map fst (count_by_period col)) /\
      covid_count (Some "unknown") col
      = List.length (filter (fun g => match release_date_parsed g with
                                      | Returns None => true
                                      | _ => false
                                      end) df)
  | SparkUpgradeException =>
      covid_counts df = SparkUpgradeException /\
      exists g, In g df /\ release_date_parsed g = SparkUpgradeException
  | NotModelled =>
      covid_counts df = NotModelled /\
      exists g, In g df /\ release_date_parsed g = NotModelled
  end.
Proof.
  unfold covid_counts.
  destruct (covid_period_column df) as [col| |] eqn:C; unfold covid_period_column in C.
  - apply collect_returns in C.
    destruct (covid_column_rows df col C) as (L & I & U).
    split; [exact C|]. split; [reflexivity|]. split; [|split; [|split]].
    + pose proof (groups_partition (fun p : option string => p) _ col
                    covid_labels_nodup (fun k Hk => I k Hk)) as P.
      cbn [map] in P. unfold covid_count. rewrite <- L, <- P. simpl. lia.
    + intros k n H. unfold count_by_period in H. apply in_map_iff in H.
      destruct H as (k' & E & Hk). injection E as -> <-.
      apply keys_spec in Hk. destruct Hk as (x & Hx & <-).
      split; [now apply I|]. split; [reflexivity|].
      unfold covid_count.
      assert (G : In x (group (fun p : option string => p) x col))
        by now apply group_spec.
      destruct (group (fun p : option string => p) x col); [contradiction|].
      cbn [List.length]. lia.
    + unfold count_by_period. rewrite map_map. cbn [fst]. rewrite map_id.
      apply NoDup_nodup.
    + exact U.
  - split; [reflexivity|]. apply collect_raises in C. apply in_map_iff in C.
    destruct C as (g & E & Hg). exists g. split; [exact Hg|].
    now apply covid_period_fails.
  - split; [reflexivity|]. apply collect_not_modelled in C. apply in_map_iff in C.
    destruct C as (g & E & Hg). exists g. split; [exact Hg|].
    now apply covid_period_fails.
Qed.

(** ** Price and success *)

(** X16. Every row of [price_success_df] comes from a game of the table
    whose [total_reviews] is positive and whose price in euros is read; so
    its [positive_ratio] is never NULL, and neither are its [positive] and
    [negative] counters. *)
Theorem price_success_rows_have_a_ratio
    (string_to_double : string -> option float) (df : list Games.t)
    (row : option float * option Z * option float) :
  In row (price_success_df string_to_double df) ->
  exists g t e r,
    In g df /\ row = (Some e, Some t, Some r) /\
    price_eur string_to_double g = Some e /\
    total_reviews g = Some t /\ 0 < t /\
    positive_ratio g = Some r /\
    price string_to_double g <> None /\
    positive g <> None /\ negative g <> None.
Proof.
  unfold price_success_df. intros H. apply filter_In in H. destruct H as [H C].
  apply in_map_iff in H. destruct H as (g & <- & Hg). cbn [fst snd] in C.
  pose proof (positive_ratio_cases g) as R.
  pose proof (total_reviews_add g) as T.
  unfold gt, cmp in C.
  destruct (total_reviews g) as [t|] eqn:Et;
    [|destruct (gt_double _ _) as [[|]|]; discriminate].
  cbn [option_map] in C. rewrite Z.gtb_ltb in C.
  destruct (0 <? t) eqn:E; [apply Z.ltb_lt in E|discriminate].
  destruct (positive g) as [p|] eqn:Ep; [|discriminate].
  destruct (negative g) as [n|] eqn:En; [|discriminate].
  destruct (price_eur string_to_double g) as [e|] eqn:Pe; [|discriminate].
  exists g, t, e, (PrimFloat.div (long_to_double p) (long_to_double t)).
  split; [exact Hg|]. split; [now rewrite R|]. split; [exact Pe|].
  split; [exact Et|]. split; [exact E|]. split; [exact R|].
  split; [|split; congruence].
  unfold price_eur, div_const in Pe.
  destruct (price string_to_double g); [discriminate|cbn in Pe; discriminate].
Qed.

#[warnings="-inexact-float"]
Lemma price_success_rows_have_a_ratio_witness :
  exists g t e r,
    In g [priced_game "950" "90" "10"; priced_game "950" "0" "0"] /\
    (Some 9.5%float, Some 100, Some 0.9%float) = (Some e, Some t, Some r) /\
    price_eur (fun _ => Some 950%float) g = Some e /\
    total_reviews g = Some t /\ 0 < t /\
    positive_ratio g = Some r /\
    price (fun _ => Some 950%float) g <> None /\
    positive g <> None /\ negative g <> None.
Proof.
  apply (price_success_rows_have_a_ratio (fun _ => Some 950%float)
           [priced_game "950" "90" "10"; priced_game "950" "0" "0"]).
  vm_compute. left. reflexivity.
Defined.

(** ** The most reviewed Windows-only games *)

Lemma desc_leb_spec (a b : option Z) : desc_leb a b = true <-> desc_nulls_last a b.
Proof.
  destruct a as [x|], b as [y|]; cbn; try tauto; try (split; [auto|reflexivity]).
  - apply Z.leb_le.
  - split; [discriminate|contradiction].
Qed.

Lemma desc_leb_total (a b : option Z) : desc_leb a b = false -> desc_nulls_last b a.
Proof.
  destruct a as [x|], b as [y|]; cbn; try discriminate; auto.
  intros H. apply Z.leb_gt in H. lia.
Qed.

Lemma desc_nulls_last_trans (a b c : option Z) :
  desc_nulls_last a b -> desc_nulls_last b c -> desc_nulls_last a c.
Proof. destruct a, b, c; cbn; try tauto; lia. Qed.

Section Desc.

Context {A : Type} (key : A -> option Z).

Let R (a b : A) : Prop := desc_nulls_last (key a) (key b).

Lemma insert_desc_perm (x : A) (l : list A) :
  Permutation (x :: l) (insert_desc key x l).
Proof.
  induction l as [|y tl IH]; [apply Permutation_refl|].
  cbn [insert_desc]. destruct (desc_leb (key x) (key y)); [apply Permutation_refl|].
  eapply perm_trans; [apply perm_swap|]. now apply perm_skip.
Qed.

Lemma insert_desc_sorted (x : A) (l : list A) :
  Sorted R l -> Sorted R (insert_desc key x l).
Proof.
  induction 1 as [|y tl S IH H]; [repeat constructor|].
  cbn [insert_desc]. destruct (desc_leb (key x) (key y)) eqn:E.
  - constructor; [now constructor|]. constructor. now apply desc_leb_spec.
  - constructor; [exact IH|]. apply desc_leb_total in E.
    destruct tl as [|z tl']; cbn [insert_desc].
    + now constructor.
    + destruct (desc_leb (key x) (key z)); constructor; [exact E|].
      now inversion H.
Qed.

Lemma sort_desc_order_by (l : list A) : order_by_desc key l (sort_desc key l).
Proof.
  split; induction l as [|x tl IH]; cbn [sort_desc]; try constructor.
  - eapply perm_trans; [apply perm_skip, IH|]. apply insert_desc_perm.
  - now apply insert_desc_sorted.
Qed.

Lemma sorted_strongly (l : list A) : Sorted R l -> StronglySorted R l.
Proof.
  apply Sorted_StronglySorted. intros a b c. apply desc_nulls_last_trans.
Qed.

Lemma strongly_sorted_app (l1 l2 : list A) :
  StronglySorted R (l1 ++ l2) ->
  StronglySorted R l1 /\ forall x y, In x l1 -> In y l2 -> R x y.
Proof.
  induction l1 as [|a tl IH]; cbn [app]; intros S.
  - split; [constructor|]. intros x y [].
  - inversion S as [|? ? S' F]; subst. destruct (IH S') as [S1 D].
    rewrite Forall_forall in F. split.
    + constructor; [exact S1|]. apply Forall_forall. intros z Hz.
      apply F, in_or_app. now left.
    + intros x y [<-|Hx] Hy; [|now apply D]. apply F, in_or_app. now right.
Qed.

End Desc.

Lemma strongly_sorted_map {A B} (f : A -> B) (R : B -> B -> Prop) (l : list A) :
  StronglySorted (fun a b => R (f a) (f b)) l -> StronglySorted R (map f l).
Proof.
  induction 1 as [|a tl S IH F]; cbn [map]; constructor; [exact IH|].
  apply Forall_map. exact F.
Qed.

Lemma windows_only_flags (g : Games.t) :
  is_true (eq_lit (is_windows_only g) true) = true <->
  Games.platform_windows g = Some true /\ Games.platform_mac g = Some false /\
  Games.platform_linux g = Some false.
Proof.
  flags g; cbn; split; try discriminate; try tauto;
    intros (H1 & H2 & H3); discriminate.
Qed.

Lemma top_ten_rows (string_to_double : string -> option float)
    (sel : list Games.t) (sorted : list Games.t) :
  order_by_desc total_reviews sel sorted ->
  List.length (map (top_columns string_to_double) (firstn 10 sorted))
  = Nat.min 10 (List.length sel) /\
  StronglySorted (fun r1 r2 => desc_nulls_last (snd (fst r1)) (snd (fst r2)))
    (map (top_columns string_to_double) (firstn 10 sorted)) /\
  Permutation sel (firstn 10 sorted ++ skipn 10 sorted) /\
  (forall g h, In g (firstn 10 sorted) -> In h (skipn 10 sorted) ->
     desc_nulls_last (total_reviews g) (total_reviews h)).
Proof.
  intros [P S]. apply sorted_strongly in S.
  rewrite <- (firstn_skipn 10 sorted) in S, P.
  destruct (strongly_sorted_app total_reviews _ _ S) as [S1 D].
  split; [|split; [|split; [exact P|exact D]]].
  - rewrite length_map, length_firstn.
    pose proof (Permutation_length P) as L. rewrite firstn_skipn in L.
    now rewrite L.
  - apply (strongly_sorted_map (top_columns string_to_double)
             (fun r1 r2 => desc_nulls_last (snd (fst r1)) (snd (fst r2)))).
    exact S1.
Qed.

(** X17. [top_windows_only] always has a result, and every result has the
    ten most reviewed Windows-only games: at most 10 rows, as many as there
    are Windows-only games when these are fewer; each row shows a game of
    the table whose Windows flag is true and whose macOS and Linux flags are
    false; the rows come with [total_reviews] going down, NULL last; and no
    Windows-only game left out has more reviews than a game shown. *)
Theorem top_windows_only_is_top_ten
    (string_to_double : string -> option float) (df : list Games.t) :
  (exists out, top_windows_only string_to_double df out) /\
  (forall out, top_windows_only string_to_double df out ->
     List.length out
     = Nat.min 10 (List.length
                     (filter (fun g => is_true (eq_lit (is_windows_only g) true)) df)) /\
     StronglySorted (fun r1 r2 => desc_nulls_last (snd (fst r1)) (snd (fst r2))) out /\
     exists shown left_out,
       out = map (top_columns string_to_double) shown /\
       Permutation (filter (fun g => is_true (eq_lit (is_windows_only g) true)) df)
                   (shown ++ left_out) /\
       (forall g, In g shown ->
          In g df /\ Games.platform_windows g = Some true /\
          Games.platform_mac g = Some false /\ Games.platform_linux g = Some false) /\
       (forall g h, In g shown -> In h left_out ->
          desc_nulls_last (total_reviews g) (total_reviews h))).
Proof.
  split.
  - eexists. eexists. split; [apply sort_desc_order_by|reflexivity].
  - intros out (sorted & O & ->).
    destruct (top_ten_rows string_to_double _ sorted O) as (L & S & P & D).
    split; [exact L|]. split; [exact S|].
    exists (firstn 10 sorted), (skipn 10 sorted).
    split; [reflexivity|]. split; [exact P|]. split; [|exact D].
    intros g Hg.
    assert (I : In g (filter (fun g => is_true (eq_lit (is_windows_only g) true)) df)).
    { apply (Permutation_in g (Permutation_sym P)), in_or_app. now left. }
    apply filter_In in I. destruct I as [I W]. split; [exact I|].
    now apply windows_only_flags.
Qed.

Lemma tri_platform_flags (g : Games.t) :
  is_true (eq_lit (is_tri_platform g) true) = true <->
  Games.platform_windows g = Some true /\ Games.platform_mac g = Some true /\
  Games.platform_linux g = Some true.
Proof.
  flags g; cbn; split; try discriminate; try tauto;
    intros (H1 & H2 & H3); discriminate.
Qed.

(** X18. [top_tri_platform] always has a result, and every result has the
    ten most reviewed games that are on the three platforms: at most 10
    rows; each row shows a game of the table whose three flags are true; the
    rows come with [total_reviews] going down, NULL last; and no such game
    left out has more reviews than a game shown. *)
Theorem top_tri_platform_is_top_ten
    (string_to_double : string -> option float) (df : list Games.t) :
  (exists out, top_tri_platform string_to_double df out) /\
  (forall out, top_tri_platform string_to_double df out ->
     List.length out
     = Nat.min 10 (List.length
                     (filter (fun g => is_true (eq_lit (is_tri_platform g) true)) df)) /\
     StronglySorted (fun r1 r2 => desc_nulls_last (snd (fst r1)) (snd (fst r2))) out /\
     exists shown left_out,
       out = map (top_columns string_to_double) shown /\
       Permutation (filter (fun g => is_true (eq_lit (is_tri_platform g) true)) df)
                   (shown ++ left_out) /\
       (forall g, In g shown ->
          In g df /\ Games.platform_windows g = Some true /\
          Games.platform_mac g = Some true /\ Games.platform_linux g = Some true) /\
       (forall g h, In g shown -> In h left_out ->
          desc_nulls_last (total_reviews g) (total_reviews h))).
Proof.
  split.
  - eexists. eexists. split; [apply sort_desc_order_by|reflexivity].
  - intros out (sorted & O & ->).
    destruct (top_ten_rows string_to_double _ sorted O) as (L & S & P & D).
    split; [exact L|]. split; [exact S|].
    exists (firstn 10 sorted), (skipn 10 sorted).
    split; [reflexivity|]. split; [exact P|]. split; [|exact D].
    intros g Hg.
    assert (I : In g (filter (fun g => is_true (eq_lit (is_tri_platform g) true)) df)).
    { apply (Permutation_in g (Permutation_sym P)), in_or_app. now left. }
    apply filter_In in I. destruct I as [I W]. split; [exact I|].
    now apply tri_platform_flags.
Qed.

(** ** Blockbusters and high-potential genres *)

Lemma somes_In {A} (a : A) (l : list (option A)) : In a (somes l) <-> In (Some a) l.
Proof.
  induction l as [|[b|] tl IH]; cbn [somes In].
  - tauto.
  - rewrite IH. split; intros [H|H]; auto; left; congruence.
  - rewrite IH. split; [auto|]. intros [H|H]; [discriminate|exact H].
Qed.

Lemma count_distinct_incl (l1 l2 : list (option Z)) :
  incl l1 l2 -> (count_distinct l1 <= count_distinct l2)%nat.
Proof.
  intros H. unfold count_distinct. apply NoDup_incl_length; [apply NoDup_nodup|].
  intros a Ha. apply nodup_In, somes_In. apply nodup_In, somes_In in Ha. now apply H.
Qed.

Lemma nb_games_incl (k : option string) (sub rows : list (Games.t * option string)) :
  incl sub rows -> (nb_games k sub <= nb_games k rows)%nat.
Proof.
  intros H. unfold nb_games. apply count_distinct_incl.
  intros a Ha. apply in_map_iff in Ha. destruct Ha as (row & <- & Hr).
  apply (in_map (fun row0 : Games.t * option string => Games.app_id (fst row0))).
  apply group_spec in Hr. apply group_spec. destruct Hr as [Hr Hk].
  split; [now apply H|exact Hk].
Qed.

Lemma genre_rate_when_positive (k : option string)
    (rows : list (Games.t * option string)) (t : Z) :
  sum_total_reviews (genre_reviews_of k rows) = Some t -> 0 < t ->
  exists p, sum_positive (genre_reviews_of k rows) = Some p /\
            positive_rate (genre_reviews_of k rows)
            = Some (PrimFloat.div (long_to_double p) (long_to_double t)).
Proof.
  unfold genre_reviews_of. cbn [sum_total_reviews sum_positive positive_rate].
  rewrite <- !(map_map fst).
  set (l := map fst (group exploded_genre k rows)).
  pose proof (sum_total_needs_positive l) as N.
  intros E R. rewrite E in *.
  destruct (sum_long (map positive l)) as [p|]; [|discriminate (N eq_refl)].
  exists p. split; [reflexivity|].
  unfold gt, cmp, div_longs, div_long, cast_long_double. cbn [option_map].
  rewrite Z.gtb_ltb.
  replace (0 <? t) with true by (symmetry; now apply Z.ltb_lt).
  now replace (t =? 0) with false by (symmetry; apply Z.eqb_neq; lia).
Qed.

(** X19. The blockbusters are rows of the exploded table whose game has more
    than 50000 reviews, a [positive_ratio] and a price that are not NULL;
    and in every genre there are at most as many blockbusters as games, so a
    genre counted among the blockbusters is a genre of the table. *)
Theorem blockbusters_are_reviewed_games
    (string_to_double : string -> option float)
    (rows : list (Games.t * option string)) :
  Forall (fun row =>
            In row rows /\
            (exists t, total_reviews (fst row) = Some t /\ 50000 < t) /\
            positive_ratio (fst row) <> None /\
            price string_to_double (fst row) <> None)
         (blockbusters_df string_to_double rows) /\
  (forall k, (nb_games k (blockbusters_df string_to_double rows)
              <= nb_games k rows)%nat) /\
  (forall k n, In (k, n) (blockbuster_genre_counts string_to_double rows) ->
     exists m, In (k, m) (genre_counts_df rows) /\ (n <= m)%nat).
Proof.
  assert (I : incl (blockbusters_df string_to_double rows) rows).
  { intros row H. unfold blockbusters_df in H.
    apply filter_In in H. destruct H as [H _].
    apply filter_In in H. destruct H as [H _].
    apply filter_In in H. now destruct H. }
  split; [|split].
  - apply Forall_forall. intros row H. split; [now apply I|].
    unfold blockbusters_df in H.
    apply filter_In in H. destruct H as [H P].
    apply filter_In in H. destruct H as [H R].
    apply filter_In in H. destruct H as [_ T].
    split; [|split].
    + unfold gt, cmp in T. destruct (total_reviews (fst row)) as [t|]; [|discriminate].
      cbn [option_map is_true] in T. rewrite Z.gtb_ltb in T.
      destruct (50000 <? t) eqn:E; [|discriminate].
      exists t. split; [reflexivity|]. now apply Z.ltb_lt.
    + destruct (positive_ratio (fst row)); [discriminate|discriminate R].
    + destruct (price string_to_double (fst row)); [discriminate|discriminate P].
  - intros k. now apply nb_games_incl.
  - intros k n H. unfold blockbuster_genre_counts, genre_counts_df in H.
    apply in_map_iff in H. destruct H as (k' & E & Hk). injection E as -> <-.
    exists (nb_games k rows). split; [|now apply nb_games_incl].
    unfold genre_counts_df.
    apply (in_map (fun k0 => (k0, nb_games k0 rows))).
    apply keys_spec in Hk. destruct Hk as (row & Hr & Ek).
    apply keys_spec. exists row. split; [now apply I|exact Ek].
Qed.

(** X20. Every high-potential genre is a genre of the statistics whose sum
    of [total_reviews] is at least 10000; its sum of [positive] is not NULL
    and its [positive_rate] is that sum divided by the sum of
    [total_reviews], never NULL. *)
Theorem high_potential_genres_have_a_rate (rows : list (Games.t * option string)) :
  Forall (fun s =>
            In s (genre_reviews_df rows) /\
            exists t p,
              sum_total_reviews s = Some t /\ MIN_REVIEWS_GENRE <= t /\
              sum_positive s = Some p /\
              positive_rate s
              = Some (PrimFloat.div (long_to_double p) (long_to_double t)))
         (high_potential_genres_df rows).
Proof.
  apply Forall_forall. intros s H. unfold high_potential_genres_df in H.
  apply filter_In in H. destruct H as [H _].
  apply filter_In in H. destruct H as [H T]. split; [exact H|].
  unfold genre_reviews_df in H. apply in_map_iff in H. destruct H as (k & <- & _).
  unfold ge, cmp, MIN_REVIEWS_GENRE in *.
  destruct (sum_total_reviews (genre_reviews_of k rows)) as [t|] eqn:E;
    [|discriminate].
  cbn [option_map is_true] in T. rewrite Z.geb_leb in T.
  destruct (10000 <=? t) eqn:B; [apply Z.leb_le in B|discriminate].
  destruct (genre_rate_when_positive k rows t E ltac:(lia)) as (p & Hp & Hr).
  exists t, p. repeat split; assumption.
Qed.
